(** * Verification of [scripts/conversion_toolkits/convert_electra.py]

    A shallow embedding of the ELECTRA checkpoint converter: the
    name-mapping engine ([get_name_map] and [CONVERT_MAP]), the config
    translator ([convert_tf_config], [convert_tf_assets]), the three
    stages of the per-role loop of [convert_tf_model] (the per-key copy
    loop, the leftover check and the query/key/value merger) and the
    reader of the checkpoint ([read_tf_checkpoint]).

    Python values are modelled as follows.
    - [str]: [string]; a character is a code point in [0, 255].
    - [dict] iterated in insertion order (the name map): an association
      list with Python's update-in-place insertion, [Dict.set].
    - [dict] used for lookup only ([tf_params], [mx_params]): [gmap].
    - [set]: [gset].
    - a numpy array: its shape and its elements in C order.
    - a [Parameter] of the target model: a location of a heap, so that
      two names of one parameter share their value.
    - an exception: the left summand of [exn + A]. *)

From Stdlib Require Import Ascii String DecimalNat DecimalString QArith_base.
From stdpp Require Import base option list sorting functions gmap strings.

Local Open Scope string_scope.

(** ** Exceptions *)

Inductive exn : Type :=
| NotImplementedError
| AssertionError (msg : option string)
| KeyError (key : string)
| ValueError
| UnboundLocalError (name : string)
| FileNotFoundError (path : string).

Definition result (A : Type) : Type := (exn + A)%type.

Definition raise {A} (e : exn) : result A := inl e.
Definition ret {A} (x : A) : result A := inr x.
Definition bind {A B} (m : result A) (k : A → result B) : result B :=
  match m with
  | inl e => inl e
  | inr x => k x
  end.

Notation "'let!' x ':=' m 'in' k" := (bind m (fun x => k))
  (at level 10, x pattern, m at level 100, k at level 200, only parsing).

(** ** Python string operations *)

Module Str.

(** [s.startswith(p)] *)
Fixpoint startswith (p s : string) : bool :=
  match p, s with
  | EmptyString, _ => true
  | String a p', String b s' => if Ascii.eqb a b then startswith p' s' else false
  | String _ _, EmptyString => false
  end.

(** [sub in s] *)
Fixpoint contains (sub s : string) : bool :=
  if startswith sub s then true
  else match s with
       | EmptyString => false
       | String _ s' => contains sub s'
       end.

(** [s.endswith(suffix)] *)
Definition endswith (suffix s : string) : bool :=
  let n := String.length s in
  let k := String.length suffix in
  if (k <=? n)%nat then String.eqb (substring (n - k) k s) suffix else false.

(** The scan of [s.replace(old, new)] for a non-empty [old]: occurrences
    are found left to right and do not overlap; [skip] counts the
    characters of the current occurrence that are still to be dropped. *)
Fixpoint replace_scan (old new s : string) (skip : nat) : string :=
  match s with
  | EmptyString => EmptyString
  | String c s' =>
      match skip with
      | S k => replace_scan old new s' k
      | O =>
          if startswith old s
          then new +:+ replace_scan old new s' (String.length old - 1)
          else String c (replace_scan old new s' 0)
      end
  end.

(** With an empty [old], Python puts [new] before every character and
    at the end. *)
Fixpoint interleave (new s : string) : string :=
  match s with
  | EmptyString => new
  | String c s' => new +:+ String c (interleave new s')
  end.

(** [s.replace(old, new)] *)
Definition replace (old new s : string) : string :=
  match old with
  | EmptyString => interleave new s
  | String _ _ => replace_scan old new s 0
  end.

(** All the characters of [s] are ASCII digits. *)
Fixpoint all_digits (s : string) : bool :=
  match s with
  | EmptyString => true
  | String c s' =>
      match Ascii.is_nat c with Some _ => all_digits s' | None => false end
  end.

(** [str(n)] for a non-negative integer. *)
Definition of_nat (n : nat) : string :=
  NilEmpty.string_of_uint (Nat.to_uint n).

End Str.

(** ** The rewrite rules *)

Definition CONVERT_MAP : list (string * string) :=
  [ ("backbone_model.discriminator_predictions/dense_1", "rtd_encoder.2");
    ("backbone_model.discriminator_predictions/dense", "rtd_encoder.0");
    ("backbone_model.generator_predictions/dense", "mlm_decoder.0");
    ("backbone_model.generator_predictions/LayerNorm", "mlm_decoder.2");
    ("backbone_model.generator_predictions/output_bias", "mlm_decoder.3.bias");
    ("electra/", "");
    ("generator/", "");
    ("embeddings_project", "embed_factorized_proj");
    ("embeddings/word_embeddings", "word_embed.weight");
    ("embeddings/token_type_embeddings", "token_type_embed.weight");
    ("embeddings/position_embeddings", "token_pos_embed._embed.weight");
    ("layer_", "all_encoder_layers.");
    ("embeddings/LayerNorm", "embed_layer_norm");
    ("attention/output/LayerNorm", "layer_norm");
    ("attention/output/dense", "attention_proj");
    ("output/LayerNorm", "ffn.layer_norm");
    ("LayerNorm", "layer_norm");
    ("intermediate/dense", "ffn.ffn_1");
    ("output/dense", "ffn.ffn_2");
    ("output/", "");
    ("kernel", "weight");
    ("/", ".") ].

(** [for old, new in rules: target_name = target_name.replace(old, new)] *)
Definition apply_rules (rules : list (string * string)) (target_name : string) : string :=
  fold_left (fun t '(old, new) => Str.replace old new t) rules target_name.

(** ** Insertion-ordered dictionaries *)

Module Dict.

Section Dict.
Context {V : Type}.

Definition t : Type := list (string * V).

Fixpoint get (d : t) (k : string) : option V :=
  match d with
  | [] => None
  | (k', v) :: d' => if String.eqb k' k then Some v else get d' k
  end.

(** [d[k] = v]: an existing key keeps its position, a new key goes
    to the end. *)
Fixpoint set (d : t) (k : string) (v : V) : t :=
  match d with
  | [] => [(k, v)]
  | (k', v') :: d' =>
      if String.eqb k' k then (k', v) :: d' else (k', v') :: set d' k v
  end.

Definition keys (d : t) : list string := map fst d.
End Dict.

Arguments t : clear implicits.

End Dict.

(** ** The name-mapping engine: [get_name_map] *)

(** The role branches at the head of the loop body. [inr None] is
    [continue]; [inr (Some t)] carries [target_name] on to the rest of
    the body. *)
Definition role_filter (convert_type source_name : string) : result (option string) :=
  let target_name := source_name in
  if String.eqb convert_type "backbone" then
    if negb (Str.contains "electra" source_name) then ret None
    else ret (Some target_name)
  else if String.eqb convert_type "disc" then
    let target_name := "backbone_model." +:+ target_name in
    if Str.contains "generator" source_name then ret None
    else ret (Some target_name)
  else if String.eqb convert_type "gen" then
    let target_name := "backbone_model." +:+ target_name in
    if negb (Str.contains "generator" source_name) then ret None
    else ret (Some target_name)
  else raise NotImplementedError.

(** One iteration of the loop. The sentinel [None] of the Python
    dictionary is the value [None] here; a key that is not in the
    dictionary has no entry. *)
Definition name_map_step (rules : list (string * string)) (convert_type : string)
    (name_map : Dict.t (option string)) (source_name : string)
  : result (Dict.t (option string)) :=
  let! r := role_filter convert_type source_name in
  match r with
  | None => ret name_map
  | Some target_name =>
      if Str.contains "self/" source_name
      then ret (Dict.set name_map source_name None)
      else ret (Dict.set name_map source_name (Some (apply_rules rules target_name)))
  end.

Fixpoint name_map_loop (rules : list (string * string)) (convert_type : string)
    (tf_names : list string) (name_map : Dict.t (option string))
  : result (Dict.t (option string)) :=
  match tf_names with
  | [] => ret name_map
  | source_name :: rest =>
      let! name_map' := name_map_step rules convert_type name_map source_name in
      name_map_loop rules convert_type rest name_map'
  end.

(** [get_name_map] over an arbitrary rule list. *)
Definition get_name_map_with (rules : list (string * string))
    (tf_names : list string) (convert_type : string)
  : result (Dict.t (option string)) :=
  name_map_loop rules convert_type tf_names [].

Definition get_name_map (tf_names : list string) (convert_type : string)
  : result (Dict.t (option string)) :=
  get_name_map_with CONVERT_MAP tf_names convert_type.

(** The role filter in closed form. *)
Definition supported (convert_type : string) : Prop :=
  convert_type = "backbone" ∨ convert_type = "disc" ∨ convert_type = "gen".

Definition passes (convert_type source_name : string) : bool :=
  if String.eqb convert_type "backbone" then Str.contains "electra" source_name
  else if String.eqb convert_type "disc" then negb (Str.contains "generator" source_name)
  else Str.contains "generator" source_name.

Definition role_prefix (convert_type : string) : string :=
  if String.eqb convert_type "backbone" then "" else "backbone_model.".

Definition entry (rules : list (string * string)) (convert_type source_name : string)
  : option string :=
  if Str.contains "self/" source_name then None
  else Some (apply_rules rules (role_prefix convert_type +:+ source_name)).

(** Two runs agree: the same exception, or name maps with the same
    entries. *)
Definition same_name_map (r1 r2 : result (Dict.t (option string))) : Prop :=
  match r1, r2 with
  | inl e1, inl e2 => e1 = e2
  | inr m1, inr m2 => ∀ n, Dict.get m1 n = Dict.get m2 n
  | _, _ => False
  end.

(** ** The names handed to the engine by [convert_tf_model] *)

(** [sorted(keys)]: strings are compared code point by code point. *)
Definition sorted (keys : list string) : list string :=
  merge_sort String.le keys.

(** Lines 231-236: the sorted keys of the checkpoint without the
    optimizer slots, the step counter and the temperature. *)
Definition checkpoint_names (keys : list string) : list string :=
  let tf_names := sorted keys in
  let tf_names := List.filter (fun name => negb (Str.endswith "adam_m" name)) tf_names in
  let tf_names := List.filter (fun name => negb (Str.endswith "adam_v" name)) tf_names in
  let tf_names := List.filter (fun name => negb (String.eqb name "global_step")) tf_names in
  let tf_names :=
    List.filter (fun name => negb (String.eqb name "generator_predictions/temperature")) tf_names in
  tf_names.

(** ** Regular expressions *)

Module Re.

Inductive regex : Type :=
| Void
| Eps
| Class (p : ascii -> bool)
| Seq (r1 r2 : regex)
| Alt (r1 r2 : regex)
| Star (r : regex).

Definition Chr (c : ascii) : regex := Class (Ascii.eqb c).

(** A literal string. *)
Fixpoint Lit (s : string) : regex :=
  match s with
  | EmptyString => Eps
  | String c s' => Seq (Chr c) (Lit s')
  end.

(** [r{0,1}] and [r+] *)
Definition Opt (r : regex) : regex := Alt Eps r.
Definition Plus (r : regex) : regex := Seq r (Star r).

(** [\d] on code points below 256: the ten ASCII digits. *)
Definition digit (c : ascii) : bool :=
  match Ascii.is_nat c with Some _ => true | None => false end.

Fixpoint nullable (r : regex) : bool :=
  match r with
  | Void => false
  | Eps => true
  | Class _ => false
  | Seq r1 r2 => nullable r1 && nullable r2
  | Alt r1 r2 => nullable r1 || nullable r2
  | Star _ => true
  end.

Fixpoint deriv (c : ascii) (r : regex) : regex :=
  match r with
  | Void => Void
  | Eps => Void
  | Class p => if p c then Eps else Void
  | Seq r1 r2 =>
      if nullable r1 then Alt (Seq (deriv c r1) r2) (deriv c r2)
      else Seq (deriv c r1) r2
  | Alt r1 r2 => Alt (deriv c r1) (deriv c r2)
  | Star r1 => Seq (deriv c r1) (Star r1)
  end.

(** The strings of a regular expression. *)
Inductive lang : regex -> string -> Prop :=
| lang_eps : lang Eps ""
| lang_class p c : p c = true -> lang (Class p) (String c "")
| lang_seq r1 r2 s1 s2 : lang r1 s1 -> lang r2 s2 -> lang (Seq r1 r2) (s1 +:+ s2)
| lang_alt_l r1 r2 s : lang r1 s -> lang (Alt r1 r2) s
| lang_alt_r r1 r2 s : lang r2 s -> lang (Alt r1 r2) s
| lang_star_nil r : lang (Star r) ""
| lang_star_cons r s1 s2 : lang r s1 -> lang (Star r) s2 -> lang (Star r) (s1 +:+ s2).

(** Does the whole of [s] match [r]? *)
Fixpoint fullmatch (r : regex) (s : string) : bool :=
  match s with
  | EmptyString => nullable r
  | String c s' => fullmatch (deriv c r) s'
  end.

(** [re.match('^' body '$', s) is not None]. Without flags [^] holds at
    the start only, and [$] holds at the end of the string and just
    before a newline that ends the string. *)
Definition match_anchored (body : regex) (s : string) : bool :=
  fullmatch (Seq body (Opt (Chr "010"))) s.

End Re.

(** ** numpy arrays *)

Module Np.

Section Ndarray.
Context {A : Type}.

(** An array in C order: [data] lists the elements with the last
    axis varying fastest. *)
Record ndarray : Type := Ndarray { shape : list nat; data : list A }.

Definition prod (shp : list nat) : nat := foldr Nat.mul 1 shp.

Definition ndim (a : ndarray) : nat := length (shape a).

(** An array holds as many elements as its shape says. *)
Definition wf (a : ndarray) : Prop := length (data a) = prod (shape a).

(** Flat offset to multi-index and back. *)
Fixpoint unravel (shp : list nat) (i : nat) : list nat :=
  match shp with
  | [] => []
  | _ :: shp' => i / prod shp' :: unravel shp' (i mod prod shp')
  end.

Fixpoint ravel (shp idx : list nat) : nat :=
  match shp, idx with
  | _ :: shp', k :: idx' => k * prod shp' + ravel shp' idx'
  | _, _ => 0
  end.

Fixpoint index_of (a : nat) (axes : list nat) : nat :=
  match axes with
  | [] => 0
  | x :: axes' => if Nat.eqb a x then 0 else S (index_of a axes')
  end.

(** [np.transpose(a, axes)]: axis [k] of the result is axis
    [axes[k]] of [a]. *)
Definition transpose (axes : list nat) (a : ndarray) : ndarray :=
  let shp' := omap (fun k => shape a !! k) axes in
  let source idx' := map (fun ax => nth (index_of ax axes) idx' 0) (seq 0 (length axes)) in
  Ndarray shp'
    (omap (fun i => data a !! ravel (shape a) (source (unravel shp' i)))
          (seq 0 (prod shp'))).

(** [a.T]: all the axes in reverse order. *)
Definition T (a : ndarray) : ndarray :=
  transpose (rev (seq 0 (ndim a))) a.

(** [np.swapaxes(a, -1, -2)]: the two trailing axes exchanged. numpy
    raises [AxisError], a [ValueError], below two axes. *)
Definition swap_trailing (a : ndarray) : result ndarray :=
  if Nat.ltb (ndim a) 2 then raise ValueError
  else ret (transpose (seq 0 (ndim a - 2) ++ [ndim a - 1; ndim a - 2]) a).

Definition same_except (axis : nat) (shp1 shp2 : list nat) : bool :=
  bool_decide (<[axis := 0]> shp1 = <[axis := 0]> shp2).

(** [np.concatenate(arrays, axis=axis)] for [axis >= 0]. *)
Definition concatenate (arrays : list ndarray) (axis : nat) : result ndarray :=
  match arrays with
  | [] => raise ValueError
  | a0 :: rest =>
      if negb (forallb (fun a => Nat.eqb (ndim a) (ndim a0)) rest) then raise ValueError
      else if negb (Nat.ltb axis (ndim a0)) then raise ValueError
      else if negb (forallb (fun a => same_except axis (shape a) (shape a0)) rest)
      then raise ValueError
      else
        let outer := prod (take axis (shape a0)) in
        let inner := prod (drop (S axis) (shape a0)) in
        let width a := nth axis (shape a) 0 * inner in
        ret (Ndarray
               (<[axis := sum_list (map (fun a => nth axis (shape a) 0) arrays)]> (shape a0))
               (flat_map
                  (fun o => flat_map (fun a => take (width a) (drop (o * width a) (data a))) arrays)
                  (seq 0 outer)))
  end.
End Ndarray.

Arguments ndarray : clear implicits.

End Np.

(** ** The per-role stages of [convert_tf_model] *)

(** A [Parameter] object of the target model is a location; two names
    of [mx_params] that share a parameter map to one location. *)
Definition loc : Type := nat.

Section Stages.
Context {A : Type}.

Local Abbreviation ndarray := (Np.ndarray A).

(** The values of the target parameters. *)
Definition heap : Type := loc -> ndarray.

(** [d[k]] on a dictionary used for lookup. *)
Definition getitem {V} (d : gmap string V) (k : string) : result V :=
  match d !! k with
  | Some v => ret v
  | None => raise (KeyError k)
  end.

(** [param.set_data(v)]: the parameter already has its shape (the
    model has been run once), and mxnet refuses a value of another
    shape with an assertion. *)
Definition set_data (l : loc) (v : ndarray) (h : heap) : result heap :=
  if bool_decide (Np.shape (h l) = Np.shape v)
  then ret (fn_insert l v h)
  else raise (AssertionError None).

(** [all_keys.remove(k)] *)
Definition set_remove (all_keys : gset string) (k : string) : result (gset string) :=
  if bool_decide (k ∈ all_keys) then ret (all_keys ∖ {[k]}) else raise (KeyError k).

(** *** The per-key copy loop, lines 320-328 *)

Definition copy_step (tf_params : gmap string ndarray) (mx_params : gmap string loc)
    (st : heap * gset string) (item : string * option string)
  : result (heap * gset string) :=
  let '(h, all_keys) := st in
  let '(src_name, dst_name) := item in
  let! tf_param_val := getitem tf_params src_name in
  match dst_name with
  | None => ret (h, all_keys)
  | Some dst_name =>
      let! all_keys := set_remove all_keys dst_name in
      if Str.endswith "kernel" src_name then
        let! param := getitem mx_params dst_name in
        let! h := set_data param (Np.T tf_param_val) h in
        ret (h, all_keys)
      else
        let! param := getitem mx_params dst_name in
        let! h := set_data param tf_param_val h in
        ret (h, all_keys)
  end.

Fixpoint copy_items (tf_params : gmap string ndarray) (mx_params : gmap string loc)
    (items : Dict.t (option string)) (st : heap * gset string)
  : result (heap * gset string) :=
  match items with
  | [] => ret st
  | item :: items' =>
      let! st' := copy_step tf_params mx_params st item in
      copy_items tf_params mx_params items' st'
  end.

(** Lines 318-328: [all_keys] starts as the set of the target names. *)
Definition copy_loop (tf_params : gmap string ndarray) (mx_params : gmap string loc)
    (name_map : Dict.t (option string)) (h : heap)
  : result (heap * gset string) :=
  copy_items tf_params mx_params name_map (h, dom mx_params).
(** *** The leftover check, lines 362-375 *)

(** The target names of the generator that are shared with the
    discriminator. *)
Definition disc_embed_params : gset string :=
  list_to_set
    [ "backbone_model.embed_layer_norm.beta";
      "backbone_model.embed_layer_norm.gamma";
      "backbone_model.token_pos_embed._embed.weight";
      "backbone_model.token_type_embed.weight";
      "mlm_decoder.3.weight";
      "backbone_model.word_embed.weight" ].

(** The body, between [^] and [$], of
    [(backbone_model\.){0,1}encoder\.all_encoder_layers\.[\d]+\.attn_qkv\.(weight|bias)]. *)
Definition qkv_regex : Re.regex :=
  Re.Seq (Re.Opt (Re.Lit "backbone_model."))
    (Re.Seq (Re.Lit "encoder.all_encoder_layers.")
       (Re.Seq (Re.Plus (Re.Class Re.digit))
          (Re.Seq (Re.Lit ".attn_qkv.")
             (Re.Alt (Re.Lit "weight") (Re.Lit "bias"))))).

Definition check_key (convert_type key : string) : result unit :=
  if String.eqb convert_type "gen" && bool_decide (key ∈ disc_embed_params)
  then ret tt
  else if Re.match_anchored qkv_regex key then ret tt
  else raise (AssertionError (Some ("Parameter key " +:+ key +:+ " mismatch"))).

Fixpoint check_keys (convert_type : string) (keys : list string) : result unit :=
  match keys with
  | [] => ret tt
  | key :: keys' =>
      let! _ := check_key convert_type key in
      check_keys convert_type keys'
  end.

(** [for key in all_keys]: a set is visited in an order of its own,
    here that of [elements]. *)
Definition check_leftover (convert_type : string) (all_keys : gset string) : result unit :=
  check_keys convert_type (elements all_keys).

(** *** The query/key/value merger, lines 331-360 and 377-389 *)

Definition convert_qkv_weights (tf_params : gmap string ndarray)
    (mx_params : gmap string loc) (tf_prefix mx_prefix : string) (h : heap)
  : result heap :=
  let! query_weight := getitem tf_params (tf_prefix +:+ "/query/kernel") in
  let! key_weight := getitem tf_params (tf_prefix +:+ "/key/kernel") in
  let! value_weight := getitem tf_params (tf_prefix +:+ "/value/kernel") in
  let! param := getitem mx_params (mx_prefix +:+ ".attn_qkv.weight") in
  let! fused := Np.concatenate [query_weight; key_weight; value_weight] 1 in
  let! h := set_data param (Np.T fused) h in
  let! query_bias := getitem tf_params (tf_prefix +:+ "/query/bias") in
  let! key_bias := getitem tf_params (tf_prefix +:+ "/key/bias") in
  let! value_bias := getitem tf_params (tf_prefix +:+ "/value/bias") in
  let! param := getitem mx_params (mx_prefix +:+ ".attn_qkv.bias") in
  let! fused := Np.concatenate [query_bias; key_bias; value_bias] 0 in
  set_data param fused h.

(** The prefixes [(tf_prefix, mx_prefix)] of a layer. *)
Definition layer_prefixes (convert_type : string) (layer_id : nat) : string * string :=
  let mx_prefix := "encoder.all_encoder_layers." +:+ Str.of_nat layer_id in
  if String.eqb convert_type "gen" then
    ("generator/encoder/layer_" +:+ Str.of_nat layer_id +:+ "/attention/self",
     "backbone_model." +:+ mx_prefix)
  else if String.eqb convert_type "disc" then
    ("electra/encoder/layer_" +:+ Str.of_nat layer_id +:+ "/attention/self",
     "backbone_model." +:+ mx_prefix)
  else
    ("electra/encoder/layer_" +:+ Str.of_nat layer_id +:+ "/attention/self",
     mx_prefix).

Fixpoint merge_layers (tf_params : gmap string ndarray) (mx_params : gmap string loc)
    (convert_type : string) (layers : list nat) (h : heap) : result heap :=
  match layers with
  | [] => ret h
  | layer_id :: layers' =>
      let '(tf_prefix, mx_prefix) := layer_prefixes convert_type layer_id in
      let! h := convert_qkv_weights tf_params mx_params tf_prefix mx_prefix h in
      merge_layers tf_params mx_params convert_type layers' h
  end.

(** [for layer_id in range(cfg.MODEL.num_layers)] *)
Definition merge_qkv (tf_params : gmap string ndarray) (mx_params : gmap string loc)
    (convert_type : string) (num_layers : nat) (h : heap) : result heap :=
  merge_layers tf_params mx_params convert_type (seq 0 num_layers) h.

(** The two names written by the merger for a layer, and the names
    written for all the layers. *)
Definition layer_slots (convert_type : string) (layer_id : nat) : list string :=
  let mx_prefix := snd (layer_prefixes convert_type layer_id) in
  [mx_prefix +:+ ".attn_qkv.weight"; mx_prefix +:+ ".attn_qkv.bias"].

Definition merger_filled (convert_type : string) (num_layers : nat) : gset string :=
  list_to_set (flat_map (layer_slots convert_type) (seq 0 num_layers)).

(** The six names that the merger reads for a layer. *)
Definition layer_sources (convert_type : string) (layer_id : nat) : list string :=
  let tf_prefix := fst (layer_prefixes convert_type layer_id) in
  [ tf_prefix +:+ "/query/kernel"; tf_prefix +:+ "/key/kernel";
    tf_prefix +:+ "/value/kernel"; tf_prefix +:+ "/query/bias";
    tf_prefix +:+ "/key/bias"; tf_prefix +:+ "/value/bias" ].

(** The target names that the copy loop writes: the targets of the
    name map other than the sentinel. *)
Definition touched (name_map : Dict.t (option string)) : gset string :=
  list_to_set (omap snd name_map).

(** The names excused from the check of the pattern. *)
Definition exempt (convert_type : string) : gset string :=
  if String.eqb convert_type "gen" then disc_embed_params else ∅.

(** Two target names of the set [names] never share a parameter. *)
Definition unshared (mx_params : gmap string loc) (names : gset string) : Prop :=
  ∀ d1 d2 l, d1 ∈ names → d2 ∈ names →
    mx_params !! d1 = Some l → mx_params !! d2 = Some l → d1 = d2.

(** The prefix of the fused slots of a role. *)
Definition role_slot_prefix (convert_type : string) : string :=
  if String.eqb convert_type "gen" || String.eqb convert_type "disc"
  then "backbone_model." else "".

(** The fused tensors of a layer are in place in the heap [h]. *)
Definition fused_in (tf_params : gmap string ndarray) (mx_params : gmap string loc)
    (tf_prefix mx_prefix : string) (h : heap) : Prop :=
  ∃ query_weight key_weight value_weight query_bias key_bias value_bias
    fused_weight fused_bias weight_param bias_param,
    tf_params !! (tf_prefix +:+ "/query/kernel") = Some query_weight
    ∧ tf_params !! (tf_prefix +:+ "/key/kernel") = Some key_weight
    ∧ tf_params !! (tf_prefix +:+ "/value/kernel") = Some value_weight
    ∧ tf_params !! (tf_prefix +:+ "/query/bias") = Some query_bias
    ∧ tf_params !! (tf_prefix +:+ "/key/bias") = Some key_bias
    ∧ tf_params !! (tf_prefix +:+ "/value/bias") = Some value_bias
    ∧ Np.concatenate [query_weight; key_weight; value_weight] 1 = inr fused_weight
    ∧ Np.concatenate [query_bias; key_bias; value_bias] 0 = inr fused_bias
    ∧ mx_params !! (mx_prefix +:+ ".attn_qkv.weight") = Some weight_param
    ∧ mx_params !! (mx_prefix +:+ ".attn_qkv.bias") = Some bias_param
    ∧ h weight_param = Np.T fused_weight
    ∧ h bias_param = fused_bias.

(** The ways in which the merger of one layer fails. *)
Definition merge_failure (tf_params : gmap string ndarray) (mx_params : gmap string loc)
    (sources slots : list string) (e : exn) : Prop :=
  (∃ k, k ∈ sources ∧ tf_params !! k = None ∧ e = KeyError k)
  ∨ (∃ k, k ∈ slots ∧ mx_params !! k = None ∧ e = KeyError k)
  ∨ e = ValueError
  ∨ e = AssertionError None.

(** One round of the loop over the roles, up to the merger. *)
Definition convert_role (tf_names : list string) (tf_params : gmap string ndarray)
    (mx_params : gmap string loc) (num_layers : nat) (convert_type : string) (h : heap)
  : result heap :=
  let! name_map := get_name_map tf_names convert_type in
  let! st := copy_loop tf_params mx_params name_map h in
  let! _ := check_leftover convert_type st.2 in
  merge_qkv tf_params mx_params convert_type num_layers st.1.


End Stages.

(** ** [read_tf_checkpoint] *)

Section Checkpoint.
Context {A E : Type}.

(** The reader of a checkpoint is an object of the TensorFlow
    library; [E] is the type of the exceptions that the library
    raises. A reader lists its variables with their shapes, and
    gives the tensor of a variable; either call may raise. *)
Record CheckpointReader : Type := {
  get_variable_to_shape_map : E + gmap string (list nat);
  get_tensor : string -> E + Np.ndarray A }.

(** Line 46, [from tensorflow.python import pywrap_tensorflow]: the
    import raises or gives the module, of which the function uses
    [NewCheckpointReader] only; opening a path raises or gives a
    reader. *)
Context (pywrap_tensorflow : E + (string -> E + CheckpointReader)).

(** [for key in keys: tensors[key] = reader.get_tensor(key)] *)
Fixpoint read_tensors (reader : CheckpointReader) (keys : list string)
    (tensors : Dict.t (Np.ndarray A)) : E + Dict.t (Np.ndarray A) :=
  match keys with
  | [] => inr tensors
  | key :: keys' =>
      match get_tensor reader key with
      | inl e => inl e
      | inr tensor => read_tensors reader keys' (Dict.set tensors key tensor)
      end
  end.

(** Lines 44-53. [sorted(var_to_shape_map)] sorts the keys of the
    dictionary, whatever the order in which it lists them. *)
Definition read_tf_checkpoint (path : string) : E + Dict.t (Np.ndarray A) :=
  match pywrap_tensorflow with
  | inl e => inl e
  | inr NewCheckpointReader =>
      let tensors := [] in
      match NewCheckpointReader path with
      | inl e => inl e
      | inr reader =>
          match get_variable_to_shape_map reader with
          | inl e => inl e
          | inr var_to_shape_map =>
              read_tensors reader (sorted (elements (dom var_to_shape_map))) tensors
          end
      end
  end.
End Checkpoint.

(** ** The config translator *)

Module Posix.

(** [os.path.join(a, b)] *)
Definition join (a b : string) : string :=
  if Str.startswith "/" b then b
  else if String.eqb a "" || Str.endswith "/" a then a +:+ b
  else a +:+ "/" +:+ b.

(** [len(f.readlines())] on a file opened in text mode: a line ends
    at a line feed, at a carriage return, or at the two in a row.
    [pending] says that the current line has a character, [after_cr]
    that the last one was a carriage return. *)
Fixpoint count_lines_from (text : string) (pending after_cr : bool) : nat :=
  match text with
  | EmptyString => if pending then 1 else 0
  | String c text' =>
      if Ascii.eqb c "010" then
        if after_cr then count_lines_from text' false false
        else S (count_lines_from text' false false)
      else if Ascii.eqb c "013" then S (count_lines_from text' false true)
      else count_lines_from text' true false
  end.

Definition count_lines (text : string) : nat := count_lines_from text false false.

(** A line body: no line feed and no carriage return in it. *)
Fixpoint no_newline (s : string) : bool :=
  match s with
  | EmptyString => true
  | String c s' => negb (Ascii.eqb c "010") && negb (Ascii.eqb c "013") && no_newline s'
  end.

(** The text of a file written line by line; the flag of a line says
    that it ends with a carriage return and a line feed rather than
    with a line feed alone. *)
Fixpoint text_of_lines (lines : list (string * bool)) : string :=
  match lines with
  | [] => ""
  | (body, crlf) :: lines' =>
      body +:+ (if crlf then String "013" (String "010" "") else String "010" "")
           +:+ text_of_lines lines'
  end.

End Posix.

Section Config.
(** Python floats, with what the translator asks of them: [float(n)]
    and [float(s)], [n == x] between an integer and a float, and the
    literal [1E-12]. *)
Context {F : Type}.
Context (float_of_int : Z -> result F) (float_of_str : string -> result F).
Context (int_eq_float : Z -> F -> bool) (float_1E_12 : F).

Inductive pyval : Type :=
| PyInt (n : Z)
| PyFloat (x : F)
| PyStr (s : string).

(** [n == v] for an integer [n]. *)
Definition int_eq (n : Z) (v : pyval) : bool :=
  match v with
  | PyInt m => Z.eqb n m
  | PyFloat x => int_eq_float n x
  | PyStr _ => false
  end.

(** [float(v)] *)
Definition py_float (v : pyval) : result F :=
  match v with
  | PyInt n => float_of_int n
  | PyFloat x => ret x
  | PyStr s => float_of_str s
  end.

(** The fields that [convert_tf_config] writes. *)
Record cfg : Type := Cfg {
  MODEL_vocab_size : Z;
  MODEL_units : pyval;
  MODEL_embed_size : pyval;
  MODEL_hidden_size : pyval;
  MODEL_max_length : pyval;
  MODEL_num_heads : pyval;
  MODEL_num_layers : pyval;
  MODEL_pos_embed_type : string;
  MODEL_activation : pyval;
  MODEL_layer_norm_eps : F;
  MODEL_num_token_types : pyval;
  MODEL_hidden_dropout_prob : F;
  MODEL_attention_dropout_prob : F;
  MODEL_dtype : string;
  MODEL_generator_layers_scale : pyval;
  MODEL_generator_units_scale : pyval;
  INITIALIZER_weight : list pyval;
  INITIALIZER_bias : list pyval;
  VERSION : Z;
  frozen : bool
}.

Definition convert_tf_config (config_dict : gmap string pyval) (vocab_size : Z)
  : result cfg :=
  let! expected := getitem config_dict "vocab_size" in
  if negb (int_eq vocab_size expected) then raise (AssertionError None)
  else
    let! units := getitem config_dict "hidden_size" in
    let! embed_size := getitem config_dict "embedding_size" in
    let! hidden_size := getitem config_dict "intermediate_size" in
    let! max_length := getitem config_dict "max_position_embeddings" in
    let! num_heads := getitem config_dict "num_attention_heads" in
    let! num_layers := getitem config_dict "num_hidden_layers" in
    let! activation := getitem config_dict "hidden_act" in
    let! num_token_types := getitem config_dict "type_vocab_size" in
    let! v := getitem config_dict "hidden_dropout_prob" in
    let! hidden_dropout_prob := py_float v in
    let! v := getitem config_dict "attention_probs_dropout_prob" in
    let! attention_dropout_prob := py_float v in
    let! generator_layers_scale := getitem config_dict "generator_layers" in
    let! generator_units_scale := getitem config_dict "generator_hidden_size" in
    let! initializer_range := getitem config_dict "initializer_range" in
    ret {| MODEL_vocab_size := vocab_size;
           MODEL_units := units;
           MODEL_embed_size := embed_size;
           MODEL_hidden_size := hidden_size;
           MODEL_max_length := max_length;
           MODEL_num_heads := num_heads;
           MODEL_num_layers := num_layers;
           MODEL_pos_embed_type := "learned";
           MODEL_activation := activation;
           MODEL_layer_norm_eps := float_1E_12;
           MODEL_num_token_types := num_token_types;
           MODEL_hidden_dropout_prob := hidden_dropout_prob;
           MODEL_attention_dropout_prob := attention_dropout_prob;
           MODEL_dtype := "float32";
           MODEL_generator_layers_scale := generator_layers_scale;
           MODEL_generator_units_scale := generator_units_scale;
           INITIALIZER_weight := [PyStr "truncnorm"; PyInt 0; initializer_range];
           INITIALIZER_bias := [PyStr "zeros"];
           VERSION := 1;
           frozen := true |}.

(** The loop of [convert_tf_assets] over the directory listing. *)
Fixpoint find_vocab (file_names : list string) (vocab_path : option string)
  : result (option string) :=
  match file_names with
  | [] => ret vocab_path
  | ele :: rest =>
      if Str.endswith ".txt" ele then
        match vocab_path with
        | Some _ => raise (AssertionError None)
        | None => find_vocab rest (Some ele)
        end
      else find_vocab rest vocab_path
  end.

(** [file_names] is the listing of [tf_assets_dir], [files] gives the
    text of the files that can be read, and [config_dict] is what
    [get_dict_config] returns. *)
Definition convert_tf_assets (tf_assets_dir : string) (file_names : list string)
    (files : gmap string string) (config_dict : gmap string pyval)
  : result (cfg * string) :=
  let! found := find_vocab file_names None in
  match found with
  | None => raise (AssertionError None)
  | Some vocab_path =>
      if negb (String.eqb vocab_path "") then
        let vocab_path := Posix.join tf_assets_dir vocab_path in
        match files !! vocab_path with
        | None => raise (FileNotFoundError vocab_path)
        | Some text =>
            let vocab_size := Z.of_nat (Posix.count_lines text) in
            let! c := convert_tf_config config_dict vocab_size in
            ret (c, vocab_path)
        end
      else raise (UnboundLocalError "vocab_size")
  end.

(** The keys read after the check of the vocabulary size. *)
Definition config_keys : list string :=
  [ "hidden_size"; "embedding_size"; "intermediate_size"; "max_position_embeddings";
    "num_attention_heads"; "num_hidden_layers"; "hidden_act"; "type_vocab_size";
    "hidden_dropout_prob"; "attention_probs_dropout_prob"; "generator_layers";
    "generator_hidden_size"; "initializer_range" ].

(** A dictionary as [get_dict_config] builds it: every key is there
    and the two dropout rates convert to a float. *)
Definition well_formed (config_dict : gmap string pyval) : Prop :=
  (∀ k, k ∈ config_keys → is_Some (config_dict !! k))
  ∧ ∀ k v, k ∈ ["hidden_dropout_prob"; "attention_probs_dropout_prob"] →
           config_dict !! k = Some v → ∃ x, py_float v = inr x.
End Config.

(** ** Concrete inputs for the examples *)

(** A concrete reading of Python floats for the examples: rationals. *)
Definition q_of_int (n : Z) : result Q := inr (inject_Z n).
Definition q_of_str (s : string) : result Q := inl ValueError.
Definition int_eq_q (n : Z) (x : Q) : bool := Qeq_bool (inject_Z n) x.
Definition q_1E_12 : Q := Qmake 1 1000000000000.

(** The configuration of the small model, with a vocabulary of 50. *)
Definition small_config : gmap string (@pyval Q) :=
  list_to_map
    [ ("vocab_size", PyInt 50); ("hidden_size", PyInt 8); ("embedding_size", PyInt 8);
      ("intermediate_size", PyInt 32); ("max_position_embeddings", PyInt 512);
      ("num_attention_heads", PyInt 2); ("num_hidden_layers", PyInt 2);
      ("hidden_act", PyStr "gelu"); ("type_vocab_size", PyInt 2);
      ("hidden_dropout_prob", PyFloat (Qmake 1 10));
      ("attention_probs_dropout_prob", PyFloat (Qmake 1 10));
      ("generator_layers", PyFloat 1%Q); ("generator_hidden_size", PyFloat (Qmake 1 4));
      ("initializer_range", PyFloat (Qmake 2 100)) ].

(** A vocabulary file of [n] lines. *)
Fixpoint vocab_text (n : nat) : string :=
  match n with
  | O => ""
  | S n' => "tok" +:+ String "010" (vocab_text n')
  end.

(** A small run of the backbone role: one parameter is copied, one
    fused slot is left for the merger and ["pooler.weight"] is left
    without a source. *)
Definition ex_tf_params : gmap string (Np.ndarray Z) :=
  {[ "electra/embeddings/LayerNorm/beta" := Np.Ndarray [2] [1%Z; 2%Z] ]}.
Definition ex_mx_params : gmap string loc :=
  list_to_map
    [ ("embed_layer_norm.beta", 0); ("encoder.all_encoder_layers.0.attn_qkv.weight", 1);
      ("pooler.weight", 2) ].
Definition ex_name_map : Dict.t (option string) :=
  [ ("electra/embeddings/LayerNorm/beta", Some "embed_layer_norm.beta") ].
Definition ex_heap : @heap Z := fun _ => Np.Ndarray [2] [0%Z; 0%Z].

(** A dense kernel and a bias of the discriminator head. *)
Definition ex3_tf_params : gmap string (Np.ndarray Z) :=
  list_to_map
    [ ("discriminator_predictions/dense/kernel", Np.Ndarray [2; 3] [1; 2; 3; 4; 5; 6]%Z);
      ("discriminator_predictions/dense/bias", Np.Ndarray [3] [7; 8; 9]%Z) ].
Definition ex3_mx_params : gmap string loc :=
  list_to_map [ ("rtd_encoder.0.weight", 0); ("rtd_encoder.0.bias", 1) ].
Definition ex3_name_map : Dict.t (option string) :=
  [ ("discriminator_predictions/dense/bias", Some "rtd_encoder.0.bias");
    ("discriminator_predictions/dense/kernel", Some "rtd_encoder.0.weight") ].
Definition ex3_heap : @heap Z :=
  fun l => if Nat.eqb l 0 then Np.Ndarray [3; 2] [0; 0; 0; 0; 0; 0]%Z
           else Np.Ndarray [3] [0; 0; 0]%Z.

(** One layer of the discriminator: kernels of two inputs and one
    output each. *)
Definition ex2_tf_params : gmap string (Np.ndarray Z) :=
  list_to_map
    [ ("electra/encoder/layer_0/attention/self/query/kernel", Np.Ndarray [2; 1] [1; 2]%Z);
      ("electra/encoder/layer_0/attention/self/key/kernel", Np.Ndarray [2; 1] [3; 4]%Z);
      ("electra/encoder/layer_0/attention/self/value/kernel", Np.Ndarray [2; 1] [5; 6]%Z);
      ("electra/encoder/layer_0/attention/self/query/bias", Np.Ndarray [1] [7]%Z);
      ("electra/encoder/layer_0/attention/self/key/bias", Np.Ndarray [1] [8]%Z);
      ("electra/encoder/layer_0/attention/self/value/bias", Np.Ndarray [1] [9]%Z) ].
Definition ex2_mx_params : gmap string loc :=
  list_to_map
    [ ("backbone_model.encoder.all_encoder_layers.0.attn_qkv.weight", 0);
      ("backbone_model.encoder.all_encoder_layers.0.attn_qkv.bias", 1) ].
Definition ex2_heap : @heap Z :=
  fun l => if Nat.eqb l 0 then Np.Ndarray [3; 2] [0; 0; 0; 0; 0; 0]%Z
           else Np.Ndarray [3] [0; 0; 0]%Z.
Definition ex2_heap' : @heap Z :=
  fn_insert 1 (Np.Ndarray [3] [7; 8; 9]%Z)
    (fn_insert 0 (Np.Ndarray [3; 2] [1; 2; 3; 4; 5; 6]%Z) ex2_heap).

(** A round of the discriminator: the head of [ex3_tf_params] and the
    layer of [ex2_tf_params]. *)
Definition ex4_tf_names : list string :=
  [ "discriminator_predictions/dense/bias";
    "discriminator_predictions/dense/kernel";
    "electra/encoder/layer_0/attention/self/key/bias";
    "electra/encoder/layer_0/attention/self/key/kernel";
    "electra/encoder/layer_0/attention/self/query/bias";
    "electra/encoder/layer_0/attention/self/query/kernel";
    "electra/encoder/layer_0/attention/self/value/bias";
    "electra/encoder/layer_0/attention/self/value/kernel" ].
Definition ex4_tf_params : gmap string (Np.ndarray Z) := ex3_tf_params ∪ ex2_tf_params.
Definition ex4_mx_params : gmap string loc :=
  list_to_map
    [ ("rtd_encoder.0.weight", 0); ("rtd_encoder.0.bias", 1);
      ("backbone_model.encoder.all_encoder_layers.0.attn_qkv.weight", 2);
      ("backbone_model.encoder.all_encoder_layers.0.attn_qkv.bias", 3) ].
Definition ex4_heap : @heap Z :=
  fun l => if Nat.even l then Np.Ndarray [3; 2] [0; 0; 0; 0; 0; 0]%Z
           else Np.Ndarray [3] [0; 0; 0]%Z.
Definition ex4_heap' : @heap Z :=
  fn_insert 3 (Np.Ndarray [3] [7; 8; 9]%Z)
    (fn_insert 2 (Np.Ndarray [3; 2] [1; 2; 3; 4; 5; 6]%Z)
       (fn_insert 0 (Np.Ndarray [3; 2] [1; 4; 2; 5; 3; 6]%Z)
          (fn_insert 1 (Np.Ndarray [3] [7; 8; 9]%Z) ex4_heap))).


(** Two layers of the discriminator, with different tensors. *)
Definition ex6_tf_params : gmap string (Np.ndarray Z) :=
  ex2_tf_params ∪
  list_to_map
    [ ("electra/encoder/layer_1/attention/self/query/kernel", Np.Ndarray [2; 1] [21; 22]%Z);
      ("electra/encoder/layer_1/attention/self/key/kernel", Np.Ndarray [2; 1] [23; 24]%Z);
      ("electra/encoder/layer_1/attention/self/value/kernel", Np.Ndarray [2; 1] [25; 26]%Z);
      ("electra/encoder/layer_1/attention/self/query/bias", Np.Ndarray [1] [27]%Z);
      ("electra/encoder/layer_1/attention/self/key/bias", Np.Ndarray [1] [28]%Z);
      ("electra/encoder/layer_1/attention/self/value/bias", Np.Ndarray [1] [29]%Z) ].
Definition ex6_mx_params : gmap string loc :=
  list_to_map
    [ ("backbone_model.encoder.all_encoder_layers.0.attn_qkv.weight", 0);
      ("backbone_model.encoder.all_encoder_layers.0.attn_qkv.bias", 1);
      ("backbone_model.encoder.all_encoder_layers.1.attn_qkv.weight", 2);
      ("backbone_model.encoder.all_encoder_layers.1.attn_qkv.bias", 3) ].
Definition ex6_heap' : @heap Z :=
  fn_insert 3 (Np.Ndarray [3] [27; 28; 29]%Z)
    (fn_insert 2 (Np.Ndarray [3; 2] [21; 22; 23; 24; 25; 26]%Z)
       (fn_insert 1 (Np.Ndarray [3] [7; 8; 9]%Z)
          (fn_insert 0 (Np.Ndarray [3; 2] [1; 2; 3; 4; 5; 6]%Z) ex4_heap))).

(** A checkpoint library with one path, ["ckpt/electra_small"], whose
    reader lists three variables and cannot read ["b"]; the
    exceptions of the library are named by strings. *)
Definition ex7_reader (readable_b : bool) : @CheckpointReader Z string :=
  {| get_variable_to_shape_map :=
       inr (list_to_map [("global_step", []); ("b", [2]); ("a", [1])]);
     get_tensor key :=
       if String.eqb key "a" then inr (Np.Ndarray [1] [5%Z])
       else if String.eqb key "b" then
         if readable_b then inr (Np.Ndarray [2] [6%Z; 7%Z]) else inl "DataLossError"
       else if String.eqb key "global_step" then inr (Np.Ndarray [] [100%Z])
       else inl "NotFoundError" |}.
Definition ex7_pywrap_tensorflow (readable_b : bool)
  : string + (string -> string + @CheckpointReader Z string) :=
  inr (fun path => if String.eqb path "ckpt/electra_small" then inr (ex7_reader readable_b)
                   else inl "NotFoundError").

(** * Properties *)

Example replace_ex1 : Str.replace "ab" "x" "ababa" = "xxa".
Proof. reflexivity. Qed.
Example replace_ex2 : Str.replace "aa" "b" "aaa" = "ba".
Proof. reflexivity. Qed.
Example replace_ex3 : Str.replace "" "-" "abc" = "-a-b-c-".
Proof. reflexivity. Qed.
Example endswith_ex1 : Str.endswith "kernel" "a/b/kernel" = true.
Proof. reflexivity. Qed.
Example endswith_ex2 : Str.endswith "kernel" "nel" = false.
Proof. reflexivity. Qed.
Example of_nat_ex : Str.of_nat 0 = "0" /\ Str.of_nat 12 = "12".
Proof. split; reflexivity. Qed.

(** ** Dictionaries *)

Section DictFacts.
Context {V : Type}.
Implicit Types (d : Dict.t V) (k : string) (v : V).

Lemma dict_get_set_eq d k v : Dict.get (Dict.set d k v) k = Some v.
Proof.
  induction d as [|[k' v'] d IH]; simpl.
  - by rewrite String.eqb_refl.
  - destruct (String.eqb k' k) eqn:E; simpl; rewrite E; auto.
Qed.

Lemma dict_get_set_ne d k k' v :
  k ≠ k' → Dict.get (Dict.set d k v) k' = Dict.get d k'.
Proof.
  intros Hne. induction d as [|[k0 v0] d IH]; simpl.
  - by apply String.eqb_neq in Hne as ->.
  - destruct (String.eqb k0 k) eqn:E; simpl; [|by rewrite IH].
    apply String.eqb_eq in E as ->.
    by apply String.eqb_neq in Hne as ->.
Qed.

Lemma dict_get_set d k k' v :
  Dict.get (Dict.set d k v) k' = if decide (k = k') then Some v else Dict.get d k'.
Proof.
  case_decide as E; [subst; apply dict_get_set_eq | by apply dict_get_set_ne].
Qed.
End DictFacts.

(** ** The name-mapping engine *)

Lemma role_filter_supported convert_type source_name :
  supported convert_type →
  role_filter convert_type source_name =
    inr (if passes convert_type source_name
         then Some (role_prefix convert_type +:+ source_name) else None).
Proof.
  intros [-> | [-> | ->]]; unfold role_filter, passes, role_prefix; simpl;
    by destruct (Str.contains _ source_name).
Qed.

Lemma role_filter_unsupported convert_type source_name :
  ¬ supported convert_type →
  role_filter convert_type source_name = inl NotImplementedError.
Proof.
  intros Hn. unfold role_filter.
  destruct (String.eqb_spec convert_type "backbone") as [->|_];
    [destruct Hn; left; done|].
  destruct (String.eqb_spec convert_type "disc") as [->|_];
    [destruct Hn; right; left; done|].
  destruct (String.eqb_spec convert_type "gen") as [->|_];
    [destruct Hn; right; right; done|].
  done.
Qed.

Lemma role_filter_passes convert_type source_name t :
  role_filter convert_type source_name = inr (Some t) →
  supported convert_type ∧ passes convert_type source_name = true
  ∧ t = role_prefix convert_type +:+ source_name.
Proof.
  intros H.
  assert (Hs : supported convert_type).
  { destruct (String.eqb_spec convert_type "backbone"); [by left|].
    destruct (String.eqb_spec convert_type "disc"); [by right; left|].
    destruct (String.eqb_spec convert_type "gen"); [by right; right|].
    rewrite role_filter_unsupported in H; [done|].
    by intros [? | [? | ?]]. }
  rewrite role_filter_supported in H by done.
  destruct (passes convert_type source_name); naive_solver.
Qed.

Lemma name_map_step_supported rules convert_type d source_name :
  supported convert_type →
  name_map_step rules convert_type d source_name =
    inr (if passes convert_type source_name
         then Dict.set d source_name (entry rules convert_type source_name)
         else d).
Proof.
  intros Hs. unfold name_map_step, entry. rewrite role_filter_supported by done.
  destruct (passes convert_type source_name); simpl; [|done].
  by destruct (Str.contains "self/" source_name).
Qed.

Lemma name_map_loop_supported rules convert_type tf_names d :
  supported convert_type →
  ∃ m, name_map_loop rules convert_type tf_names d = inr m
    ∧ ∀ n, Dict.get m n =
        if bool_decide (n ∈ tf_names) && passes convert_type n
        then Some (entry rules convert_type n)
        else Dict.get d n.
Proof.
  intros Hs. revert d.
  induction tf_names as [|x tf_names IH]; intros d; simpl.
  - by exists d.
  - rewrite name_map_step_supported by done. simpl.
    destruct (IH (if passes convert_type x
                  then Dict.set d x (entry rules convert_type x) else d))
      as (m & -> & Hm).
    exists m. split; [done|]. intros n. rewrite Hm.
    destruct (decide (n = x)) as [->|Hne].
    + rewrite (bool_decide_eq_true_2 (x ∈ x :: tf_names)) by set_solver.
      destruct (passes convert_type x) eqn:Hp; simpl.
      * rewrite dict_get_set_eq. by destruct (bool_decide (x ∈ tf_names)).
      * by rewrite andb_false_r.
    + assert (bool_decide (n ∈ x :: tf_names) = bool_decide (n ∈ tf_names)) as ->.
      { apply bool_decide_ext. rewrite elem_of_cons.
        split; [by intros [?|?] | by right]. }
      destruct (bool_decide (n ∈ tf_names) && passes convert_type n); [done|].
      destruct (passes convert_type x); [|done].
      by rewrite dict_get_set_ne.
Qed.

(** The name map in closed form, for the three roles. *)
Lemma get_name_map_with_spec rules tf_names convert_type :
  supported convert_type →
  ∃ m, get_name_map_with rules tf_names convert_type = inr m
    ∧ ∀ n, Dict.get m n =
        if bool_decide (n ∈ tf_names) && passes convert_type n
        then Some (entry rules convert_type n)
        else None.
Proof. intros Hs. apply (name_map_loop_supported rules _ tf_names [] Hs). Qed.

(** With another role the first name raises. *)
Lemma get_name_map_with_unsupported rules x rest convert_type :
  ¬ supported convert_type →
  get_name_map_with rules (x :: rest) convert_type = inl NotImplementedError.
Proof.
  intros Hn. unfold get_name_map_with. simpl.
  unfold name_map_step. by rewrite role_filter_unsupported.
Qed.

(** Domain and values of the name map of a supported role. *)
Lemma name_map_domain rules tf_names convert_type :
  supported convert_type →
  ∃ m, get_name_map_with rules tf_names convert_type = inr m
    ∧ ∀ n, (is_Some (Dict.get m n) ↔ n ∈ tf_names ∧ passes convert_type n = true)
         ∧ ∀ t, Dict.get m n = Some (Some t) →
                t = apply_rules rules (role_prefix convert_type +:+ n).
Proof.
  intros Hs.
  destruct (get_name_map_with_spec rules tf_names convert_type Hs) as (m & Hm & Hget).
  exists m. split; [done|]. intros n. rewrite Hget. unfold entry.
  case_bool_decide as Hin; destruct (passes convert_type n); cbn [andb];
    (split; [rewrite <-not_eq_None_Some; naive_solver|]);
    intros t; destruct (Str.contains "self/" n); naive_solver.
Qed.

(** C4. A source name that passes the role filter is mapped to the
    sentinel [None] exactly when it contains ["self/"]. This holds
    whatever the list of rewrite rules is, so no rule takes part in
    the entry of such a name; every other name that passes is mapped
    to the rewritten target name. *)
Theorem C4_self_names_map_to_sentinel
    (rules : list (string * string)) (tf_names : list string)
    (convert_type source_name target_name : string) :
  source_name ∈ tf_names →
  role_filter convert_type source_name = inr (Some target_name) →
  ∃ m, get_name_map_with rules tf_names convert_type = inr m
    ∧ (Dict.get m source_name = Some None ↔ Str.contains "self/" source_name = true)
    ∧ (Str.contains "self/" source_name = false →
       Dict.get m source_name = Some (Some (apply_rules rules target_name))).
Proof.
  intros Hin (Hs & Hp & ->)%role_filter_passes.
  destruct (get_name_map_with_spec rules tf_names convert_type Hs) as (m & Hm & Hget).
  exists m. split; [done|].
  rewrite Hget, Hp, bool_decide_eq_true_2 by done. simpl. unfold entry.
  destruct (Str.contains "self/" source_name); naive_solver.
Qed.

Lemma C4_witness :
  ∃ m, get_name_map_with CONVERT_MAP
         ["electra/encoder/layer_0/attention/self/query/kernel"] "backbone" = inr m
    ∧ (Dict.get m "electra/encoder/layer_0/attention/self/query/kernel" = Some None
       ↔ Str.contains "self/" "electra/encoder/layer_0/attention/self/query/kernel" = true)
    ∧ (Str.contains "self/" "electra/encoder/layer_0/attention/self/query/kernel" = false →
       Dict.get m "electra/encoder/layer_0/attention/self/query/kernel"
       = Some (Some (apply_rules CONVERT_MAP
                       "electra/encoder/layer_0/attention/self/query/kernel"))).
Proof.
  apply (C4_self_names_map_to_sentinel CONVERT_MAP
           ["electra/encoder/layer_0/attention/self/query/kernel"] "backbone"
           "electra/encoder/layer_0/attention/self/query/kernel"
           "electra/encoder/layer_0/attention/self/query/kernel").
  - apply list_elem_of_In. simpl. left. reflexivity.
  - vm_compute. reflexivity.
Defined.

(** C5. The domain of the name map is, for the backbone role, the
    source names that contain ["electra"]; for the discriminator role,
    those that do not contain ["generator"]; for the generator role,
    those that contain ["generator"]. In the last two roles a target
    name is the rewriting of the source name prefixed with
    ["backbone_model."], in the first of the source name itself. *)
Theorem C5_role_filter_domains (tf_names : list string) :
  (∃ m, get_name_map tf_names "backbone" = inr m
     ∧ ∀ n, (is_Some (Dict.get m n) ↔ n ∈ tf_names ∧ Str.contains "electra" n = true)
          ∧ ∀ t, Dict.get m n = Some (Some t) → t = apply_rules CONVERT_MAP n)
  ∧ (∃ m, get_name_map tf_names "disc" = inr m
     ∧ ∀ n, (is_Some (Dict.get m n) ↔ n ∈ tf_names ∧ Str.contains "generator" n = false)
          ∧ ∀ t, Dict.get m n = Some (Some t) →
                 t = apply_rules CONVERT_MAP ("backbone_model." +:+ n))
  ∧ (∃ m, get_name_map tf_names "gen" = inr m
     ∧ ∀ n, (is_Some (Dict.get m n) ↔ n ∈ tf_names ∧ Str.contains "generator" n = true)
          ∧ ∀ t, Dict.get m n = Some (Some t) →
                 t = apply_rules CONVERT_MAP ("backbone_model." +:+ n)).
Proof.
  split; [|split].
  - destruct (name_map_domain CONVERT_MAP tf_names "backbone") as (m & Hm & H);
      [by left|].
    exists m. split; [done|]. intros n. apply (H n).
  - destruct (name_map_domain CONVERT_MAP tf_names "disc") as (m & Hm & H);
      [by right; left|].
    exists m. split; [done|]. intros n. destruct (H n) as [Hd Ht].
    split; [|exact Ht].
    rewrite Hd. change (passes "disc" n) with (negb (Str.contains "generator" n)).
    by rewrite negb_true_iff.
  - destruct (name_map_domain CONVERT_MAP tf_names "gen") as (m & Hm & H);
      [by right; right|].
    exists m. split; [done|]. intros n. apply (H n).
Qed.

(** C6 (as stated, refuted). ["electra/embeddings/word_embeddings"] is
    the source of the tied target ["backbone_model.word_embed.weight"]:
    the discriminator's name map sends it there and the target is in
    [disc_embed_params]. The generator's name map has no entry for it,
    neither the sentinel nor a target. *)
Lemma C6_counterexample :
  let tf_names :=
    ["electra/embeddings/word_embeddings"; "generator/embeddings_project/kernel"] in
  get_name_map tf_names "disc"
    = inr [("electra/embeddings/word_embeddings", Some "backbone_model.word_embed.weight")]
  ∧ "backbone_model.word_embed.weight" ∈ disc_embed_params
  ∧ get_name_map tf_names "gen"
    = inr [("generator/embeddings_project/kernel",
            Some "backbone_model.embed_factorized_proj.weight")]
  ∧ ∀ m, get_name_map tf_names "gen" = inr m →
         Dict.get m "electra/embeddings/word_embeddings" ≠ Some None.
Proof.
  split; [vm_compute; reflexivity|].
  split; [by vm_compute|].
  split; [vm_compute; reflexivity|].
  intros m Hm. vm_compute in Hm. injection Hm as <-. by vm_compute.
Qed.

(** C6 (amended). A source name that the discriminator's name map
    sends to one of the shared target names of [disc_embed_params] has
    no entry in the generator's name map: the role filter of the
    generator skips it. *)
Theorem C6_tied_names_absent_from_generator_map
    (tf_names tf_names' : list string) (md : Dict.t (option string))
    (source_name target_name : string) :
  get_name_map tf_names "disc" = inr md →
  Dict.get md source_name = Some (Some target_name) →
  target_name ∈ disc_embed_params →
  ∃ mg, get_name_map tf_names' "gen" = inr mg ∧ Dict.get mg source_name = None.
Proof.
  intros Hd Hget _.
  destruct (name_map_domain CONVERT_MAP tf_names "disc") as (md' & Hd' & Hdom);
    [by right; left|].
  unfold get_name_map in Hd. rewrite Hd in Hd'. injection Hd' as <-.
  destruct (Hdom source_name) as [Hin _].
  destruct Hin as [Hin _]. destruct Hin as [_ Hp]; [by eexists|].
  change (passes "disc" source_name) with (negb (Str.contains "generator" source_name)) in Hp.
  destruct (name_map_domain CONVERT_MAP tf_names' "gen") as (mg & Hg & Hdomg);
    [by right; right|].
  exists mg. split; [done|].
  destruct (Hdomg source_name) as [Hing _].
  destruct (Dict.get mg source_name) eqn:E; [|done].
  destruct Hing as [Hing _]. destruct Hing as [_ Hq]; [by eexists|].
  change (passes "gen" source_name) with (Str.contains "generator" source_name) in Hq.
  rewrite Hq in Hp. done.
Qed.

Lemma C6_witness :
  ∃ mg, get_name_map ["electra/embeddings/LayerNorm/beta"; "generator_predictions/output_bias"]
          "gen" = inr mg
    ∧ Dict.get mg "electra/embeddings/LayerNorm/beta" = None.
Proof.
  apply (C6_tied_names_absent_from_generator_map
           ["electra/embeddings/LayerNorm/beta"]
           ["electra/embeddings/LayerNorm/beta"; "generator_predictions/output_bias"]
           [("electra/embeddings/LayerNorm/beta", Some "backbone_model.embed_layer_norm.beta")]
           "electra/embeddings/LayerNorm/beta" "backbone_model.embed_layer_norm.beta").
  - vm_compute. reflexivity.
  - vm_compute. reflexivity.
  - vm_compute. reflexivity.
Defined.

(** C7. The rule list is sensitive to its order: on the name
    ["electra/embeddings/word_embeddings"] the rules of [CONVERT_MAP]
    applied in the reverse order, a permutation of the list, give
    another result than in the order of the list. *)
Theorem C7_rules_order_sensitive :
  ∃ (name : string) (rules : list (string * string)),
    rules ≡ₚ CONVERT_MAP
    ∧ apply_rules CONVERT_MAP name = "word_embed.weight"
    ∧ apply_rules rules name = "electra.embeddings.word_embeddings"
    ∧ apply_rules rules name ≠ apply_rules CONVERT_MAP name.
Proof.
  exists "electra/embeddings/word_embeddings", (rev CONVERT_MAP).
  split; [apply Permutation_sym, Permutation_rev|].
  split; [vm_compute; reflexivity|].
  split; [vm_compute; reflexivity|].
  vm_compute. discriminate.
Qed.

(** C10 (as stated, refuted). On an empty list of names the engine
    returns the empty name map for a role that is not supported. *)
Lemma C10_counterexample :
  ¬ supported "pretrain" ∧ get_name_map [] "pretrain" = inr [].
Proof.
  split; [|reflexivity].
  intros [H | [H | H]]; discriminate H.
Qed.

(** C10 (amended). For a role other than the three supported ones and
    a list of names that is not empty, the engine raises
    [NotImplementedError], at the first name, and returns no name
    map. *)
Theorem C10_unsupported_role_raises
    (tf_names : list string) (convert_type : string) :
  ¬ supported convert_type →
  tf_names ≠ [] →
  get_name_map tf_names convert_type = inl NotImplementedError.
Proof.
  intros Hn Hne. destruct tf_names as [|x rest]; [done|].
  by apply get_name_map_with_unsupported.
Qed.

Lemma C10_witness :
  get_name_map ["electra/embeddings/word_embeddings"] "pretrain" = inl NotImplementedError.
Proof.
  apply (C10_unsupported_role_raises ["electra/embeddings/word_embeddings"] "pretrain").
  - intros [H | [H | H]]; discriminate H.
  - discriminate.
Defined.

(** ** Determinism of the engine *)

Lemma sorted_same_elements (keys1 keys2 : list string) :
  NoDup keys1 → NoDup keys2 → (∀ k, k ∈ keys1 ↔ k ∈ keys2) →
  sorted keys1 = sorted keys2.
Proof.
  intros Hnd1 Hnd2 Hel. unfold sorted.
  apply (Sorted_unique String.le).
  - apply (Sorted_merge_sort String.le).
  - apply (Sorted_merge_sort String.le).
  - rewrite !merge_sort_Permutation. by apply NoDup_Permutation.
Qed.

Lemma get_name_map_extensional (names1 names2 : list string) (convert_type : string) :
  (∀ n, n ∈ names1 ↔ n ∈ names2) →
  same_name_map (get_name_map names1 convert_type) (get_name_map names2 convert_type).
Proof.
  intros Hel.
  destruct (decide (supported convert_type)) as [Hs|Hn].
  - destruct (get_name_map_with_spec CONVERT_MAP names1 convert_type Hs) as (m1 & H1 & Hg1).
    destruct (get_name_map_with_spec CONVERT_MAP names2 convert_type Hs) as (m2 & H2 & Hg2).
    unfold get_name_map. rewrite H1, H2. simpl. intros n.
    rewrite Hg1, Hg2. by rewrite (bool_decide_ext _ _ (Hel n)).
  - destruct names1 as [|x1 l1], names2 as [|x2 l2].
    + simpl. done.
    + exfalso. apply (not_elem_of_nil x2), Hel. left.
    + exfalso. apply (not_elem_of_nil x1), Hel. left.
    + unfold get_name_map. by rewrite !get_name_map_with_unsupported.
Qed.

(** C8. The name map is a function of the set of source names and of
    the role. Two listings of the keys of one checkpoint, in whatever
    order, give after the sort and the filters of [convert_tf_model]
    the same list of names and so the same result of the engine, entry
    by entry and in the same order; and without the sort the two
    results still agree on every entry. *)
Theorem C8_name_map_is_a_function_of_the_name_set
    (keys1 keys2 : list string) (convert_type : string) :
  NoDup keys1 → NoDup keys2 → (∀ k, k ∈ keys1 ↔ k ∈ keys2) →
  checkpoint_names keys1 = checkpoint_names keys2
  ∧ get_name_map (checkpoint_names keys1) convert_type
    = get_name_map (checkpoint_names keys2) convert_type
  ∧ same_name_map (get_name_map keys1 convert_type) (get_name_map keys2 convert_type).
Proof.
  intros Hnd1 Hnd2 Hel.
  assert (Hc : checkpoint_names keys1 = checkpoint_names keys2).
  { unfold checkpoint_names. by rewrite (sorted_same_elements keys1 keys2). }
  split; [done|]. split; [by rewrite Hc|].
  by apply get_name_map_extensional.
Qed.

Lemma C8_witness :
  checkpoint_names ["global_step"; "generator/embeddings_project/kernel";
                    "electra/embeddings/word_embeddings"]
  = checkpoint_names ["electra/embeddings/word_embeddings"; "global_step";
                      "generator/embeddings_project/kernel"]
  ∧ get_name_map
      (checkpoint_names ["global_step"; "generator/embeddings_project/kernel";
                         "electra/embeddings/word_embeddings"]) "disc"
    = get_name_map
        (checkpoint_names ["electra/embeddings/word_embeddings"; "global_step";
                           "generator/embeddings_project/kernel"]) "disc"
  ∧ same_name_map
      (get_name_map ["global_step"; "generator/embeddings_project/kernel";
                     "electra/embeddings/word_embeddings"] "disc")
      (get_name_map ["electra/embeddings/word_embeddings"; "global_step";
                     "generator/embeddings_project/kernel"] "disc").
Proof.
  apply (C8_name_map_is_a_function_of_the_name_set
           ["global_step"; "generator/embeddings_project/kernel";
            "electra/embeddings/word_embeddings"]
           ["electra/embeddings/word_embeddings"; "global_step";
            "generator/embeddings_project/kernel"] "disc").
  - apply (bool_decide_unpack _). vm_compute. exact I.
  - apply (bool_decide_unpack _). vm_compute. exact I.
  - intros k. rewrite !elem_of_cons, !elem_of_nil. tauto.
Defined.

Example checkpoint_names_ex :
  checkpoint_names ["global_step"; "generator/embeddings_project/kernel";
                    "electra/embeddings/word_embeddings/adam_m";
                    "electra/embeddings/word_embeddings"]
  = ["electra/embeddings/word_embeddings"; "generator/embeddings_project/kernel"].
Proof. vm_compute. reflexivity. Qed.

(** ** The config translator *)

Section ConfigFacts.
Context {F : Type}.
Context (float_of_int : Z -> result F) (float_of_str : string -> result F).
Context (int_eq_float : Z -> F -> bool) (float_1E_12 : F).

Local Abbreviation well_formed' := (well_formed float_of_int float_of_str).
Local Abbreviation convert_tf_config' :=
  (convert_tf_config float_of_int float_of_str int_eq_float float_1E_12).
Local Abbreviation convert_tf_assets' :=
  (convert_tf_assets float_of_int float_of_str int_eq_float float_1E_12).

Lemma getitem_Some {V} (d : gmap string V) k v :
  d !! k = Some v → getitem d k = inr v.
Proof. unfold getitem. by intros ->. Qed.

Lemma convert_tf_config_agree config_dict vocab_size expected :
  well_formed' config_dict →
  config_dict !! "vocab_size" = Some expected →
  int_eq int_eq_float vocab_size expected = true →
  ∃ c, convert_tf_config' config_dict vocab_size = inr c
    ∧ frozen c = true ∧ MODEL_vocab_size c = vocab_size.
Proof.
  intros [Hkeys Hfl] Hv Heq. unfold convert_tf_config.
  rewrite (getitem_Some _ _ _ Hv). cbn [bind]. rewrite Heq. cbn [negb].
  assert (Hk : ∀ k, k ∈ config_keys → ∃ v, config_dict !! k = Some v).
  { intros k Hin. by apply Hkeys. }
  unfold config_keys in Hk.
  repeat match goal with
  | |- context [getitem config_dict ?k] =>
      let v := fresh "v" in let E := fresh "E" in
      destruct (Hk k) as [v E];
      [ rewrite !elem_of_cons; tauto
      | rewrite (getitem_Some _ _ _ E); cbn [bind];
        try (destruct (Hfl k v) as [? ->];
             [ rewrite !elem_of_cons; tauto | exact E | cbn [bind] ]) ]
  end.
  eexists. split; [reflexivity|]. by split.
Qed.

Lemma convert_tf_config_disagree config_dict vocab_size expected :
  config_dict !! "vocab_size" = Some expected →
  int_eq int_eq_float vocab_size expected = false →
  convert_tf_config' config_dict vocab_size = inl (AssertionError None).
Proof.
  intros Hv Heq. unfold convert_tf_config.
  rewrite (getitem_Some _ _ _ Hv). cbn [bind]. by rewrite Heq.
Qed.

Lemma find_vocab_Some file_names acc ele :
  find_vocab file_names acc = inr (Some ele) →
  acc = Some ele ∨ Str.endswith ".txt" ele = true.
Proof.
  revert acc. induction file_names as [|x rest IH]; intros acc; simpl.
  - intros [= ->]. by left.
  - destruct (Str.endswith ".txt" x) eqn:E.
    + destruct acc; [done|]. intros [[= <-]|?]%IH; by right.
    + apply IH.
Qed.

Lemma convert_tf_assets_found tf_assets_dir file_names files config_dict ele text :
  find_vocab file_names None = inr (Some ele) →
  files !! Posix.join tf_assets_dir ele = Some text →
  convert_tf_assets' tf_assets_dir file_names files config_dict
  = let! c := convert_tf_config' config_dict (Z.of_nat (Posix.count_lines text)) in
    ret (c, Posix.join tf_assets_dir ele).
Proof.
  intros Hf Hr. unfold convert_tf_assets. rewrite Hf. cbn [bind].
  apply find_vocab_Some in Hf as [?|He]; [done|].
  destruct (String.eqb_spec ele "") as [->|_]; [done|].
  cbn [negb]. by rewrite Hr.
Qed.
(** C9. On a configuration dictionary with all its keys, the
    translator fails with the assertion of line 78 exactly when the
    vocabulary size it is given differs from the one of the
    dictionary; when the two agree it returns a frozen configuration
    with that vocabulary size. [convert_tf_assets] hands it the
    number of lines of the vocabulary file of the directory. *)
Theorem C9_vocab_size_must_agree
    (config_dict : gmap string (@pyval F)) (vocab_size : Z) (expected : @pyval F) :
  well_formed' config_dict →
  config_dict !! "vocab_size" = Some expected →
  (convert_tf_config' config_dict vocab_size = inl (AssertionError None)
   ↔ int_eq int_eq_float vocab_size expected = false)
  ∧ (int_eq int_eq_float vocab_size expected = true →
     ∃ c, convert_tf_config' config_dict vocab_size = inr c
       ∧ frozen c = true ∧ MODEL_vocab_size c = vocab_size)
  ∧ (∀ tf_assets_dir file_names files ele text,
       find_vocab file_names None = inr (Some ele) →
       files !! Posix.join tf_assets_dir ele = Some text →
       vocab_size = Z.of_nat (Posix.count_lines text) →
       convert_tf_assets' tf_assets_dir file_names files config_dict
       = let! c := convert_tf_config' config_dict vocab_size in
         ret (c, Posix.join tf_assets_dir ele)).
Proof.
  intros Hwf Hv. split; [|split].
  - split.
    + intros Hr. destruct (int_eq int_eq_float vocab_size expected) eqn:E; [|done].
      destruct (convert_tf_config_agree _ _ _ Hwf Hv E) as (c & Hc & _).
      rewrite Hc in Hr. done.
    + by apply convert_tf_config_disagree.
  - by apply convert_tf_config_agree.
  - intros ????? Hf Hr ->. by apply convert_tf_assets_found.
Qed.
End ConfigFacts.

Lemma small_config_well_formed : well_formed q_of_int q_of_str small_config.
Proof.
  split.
  - intros k Hin. unfold config_keys in Hin.
    repeat (apply elem_of_cons in Hin as [->|Hin]); try (vm_compute; by eexists).
    by apply elem_of_nil in Hin.
  - intros k v Hin.
    repeat (apply elem_of_cons in Hin as [->|Hin]);
      try (vm_compute; intros [= <-]; by eexists).
    by apply elem_of_nil in Hin.
Qed.

Lemma C9_witness :
  (convert_tf_config q_of_int q_of_str int_eq_q q_1E_12 small_config 49
   = inl (AssertionError None)
   ↔ int_eq int_eq_q 49 (PyInt 50) = false)
  ∧ (int_eq int_eq_q 49 (PyInt 50) = true →
     ∃ c, convert_tf_config q_of_int q_of_str int_eq_q q_1E_12 small_config 49 = inr c
       ∧ frozen c = true ∧ MODEL_vocab_size c = 49%Z)
  ∧ (∀ tf_assets_dir file_names files ele text,
       find_vocab file_names None = inr (Some ele) →
       files !! Posix.join tf_assets_dir ele = Some text →
       49%Z = Z.of_nat (Posix.count_lines text) →
       convert_tf_assets q_of_int q_of_str int_eq_q q_1E_12
         tf_assets_dir file_names files small_config
       = let! c := convert_tf_config q_of_int q_of_str int_eq_q q_1E_12 small_config 49 in
         ret (c, Posix.join tf_assets_dir ele)).
Proof.
  apply (C9_vocab_size_must_agree q_of_int q_of_str int_eq_q q_1E_12
           small_config 49 (PyInt 50)).
  - exact small_config_well_formed.
  - vm_compute. reflexivity.
Defined.

(** The scenario of the specification: 49 lines against a declared
    size of 50 is refused, 50 lines are accepted. *)
Example config_mismatch_scenario :
  convert_tf_assets q_of_int q_of_str int_eq_q q_1E_12
    "model" ["electra_small.index"; "vocab.txt"]
    {[ "model/vocab.txt" := vocab_text 49 ]} small_config
  = inl (AssertionError None)
  ∧ ∃ c, convert_tf_assets q_of_int q_of_str int_eq_q q_1E_12
           "model" ["electra_small.index"; "vocab.txt"]
           {[ "model/vocab.txt" := vocab_text 50 ]} small_config
         = inr (c, "model/vocab.txt")
       ∧ MODEL_vocab_size c = 50%Z ∧ frozen c = true.
Proof.
  split; [vm_compute; reflexivity|].
  eexists. split; [vm_compute; reflexivity|]. by split.
Qed.

(** ** Strings *)

Lemma app_cons c s t : String c s +:+ t = String c (s +:+ t).
Proof. reflexivity. Qed.

Lemma app_nil_r s : s +:+ "" = s.
Proof. induction s as [|c s IH]; [done|]. by rewrite app_cons, IH. Qed.

Lemma app_assoc s t u : (s +:+ t) +:+ u = s +:+ (t +:+ u).
Proof. induction s as [|c s IH]; [done|]. by rewrite !app_cons, IH. Qed.

Lemma app_eq_nil s t : s +:+ t = "" → s = "" ∧ t = "".
Proof. by destruct s. Qed.

(** ** Regular expressions: the matcher decides the language *)

Lemma nullable_complete r s : Re.lang r s → s = "" → Re.nullable r = true.
Proof.
  induction 1 as [| | r1 r2 s1 s2 _ IH1 _ IH2 | r1 r2 s _ IH | r1 r2 s _ IH | |];
    intros Hs; simpl; try done.
  - apply app_eq_nil in Hs as [-> ->]. by rewrite IH1, IH2.
  - by rewrite IH.
  - rewrite IH by done. apply orb_true_r.
Qed.

Lemma deriv_complete r w c s :
  Re.lang r w → w = String c s → Re.lang (Re.deriv c r) s.
Proof.
  intros H. revert s.
  induction H as [| p c' Hp | r1 r2 s1 s2 H1 IH1 H2 IH2 | r1 r2 w H IH | r1 r2 w H IH
                 | | r s1 s2 H1 IH1 H2 IH2]; intros s Hw; simpl; try done.
  - injection Hw as -> <-. rewrite Hp. constructor.
  - destruct s1 as [|c1 s1].
    + rewrite (nullable_complete r1 "" H1 eq_refl).
      apply Re.lang_alt_r. by apply IH2.
    + rewrite app_cons in Hw. injection Hw as -> <-.
      destruct (Re.nullable r1); [apply Re.lang_alt_l|];
        (apply Re.lang_seq; [by apply IH1 | done]).
  - apply Re.lang_alt_l. by apply IH.
  - apply Re.lang_alt_r. by apply IH.
  - destruct s1 as [|c1 s1].
    + by apply IH2.
    + rewrite app_cons in Hw. injection Hw as -> <-.
      apply Re.lang_seq; [by apply IH1 | done].
Qed.

Lemma fullmatch_complete r s : Re.lang r s → Re.fullmatch r s = true.
Proof.
  revert r. induction s as [|c s IH]; intros r H; simpl.
  - by eapply nullable_complete.
  - apply IH. by eapply deriv_complete.
Qed.

Lemma nullable_sound r : Re.nullable r = true → Re.lang r "".
Proof.
  induction r as [| | | r1 IH1 r2 IH2 | r1 IH1 r2 IH2 | r IH]; simpl; try done.
  - intros _. constructor.
  - intros [H1 H2]%andb_true_iff.
    change "" with ("" +:+ ""). constructor; auto.
  - intros [H|H]%orb_true_iff; [apply Re.lang_alt_l | apply Re.lang_alt_r]; auto.
  - intros _. constructor.
Qed.

Lemma deriv_sound r c s : Re.lang (Re.deriv c r) s → Re.lang r (String c s).
Proof.
  revert s.
  induction r as [| | p | r1 IH1 r2 IH2 | r1 IH1 r2 IH2 | r IH]; intros s; simpl.
  - inversion 1.
  - inversion 1.
  - destruct (p c) eqn:Hp; inversion 1; subst. by constructor.
  - assert (Hseq : ∀ w, Re.lang (Re.Seq (Re.deriv c r1) r2) w →
                        Re.lang (Re.Seq r1 r2) (String c w)).
    { intros w Hw. inversion Hw; subst. rewrite <-app_cons.
      constructor; [by apply IH1 | done]. }
    destruct (Re.nullable r1) eqn:Hn; [|by apply Hseq].
    inversion 1; subst; [by apply Hseq|].
    change (String c s) with ("" +:+ String c s).
    constructor; [by apply nullable_sound | by apply IH2].
  - inversion 1; subst; [apply Re.lang_alt_l | apply Re.lang_alt_r]; auto.
  - inversion 1; subst. rewrite <-app_cons. constructor; [by apply IH | done].
Qed.

Lemma fullmatch_sound r s : Re.fullmatch r s = true → Re.lang r s.
Proof.
  revert r. induction s as [|c s IH]; intros r; simpl.
  - apply nullable_sound.
  - intros H. by apply deriv_sound, IH.
Qed.

Lemma fullmatch_lang r s : Re.fullmatch r s = true ↔ Re.lang r s.
Proof. split; [apply fullmatch_sound | apply fullmatch_complete]. Qed.

Lemma lang_lit s : Re.lang (Re.Lit s) s.
Proof.
  induction s as [|c s IH]; simpl; [constructor|].
  change (String c s) with (String c "" +:+ s).
  constructor; [|done]. constructor. apply Ascii.eqb_refl.
Qed.

(** ** Decimal numerals *)

Lemma to_uint_not_nil n : Nat.to_uint n ≠ Decimal.Nil.
Proof.
  rewrite <-(DecimalNat.Unsigned.of_to n) at 1.
  rewrite DecimalNat.Unsigned.to_of. unfold Decimal.unorm.
  by destruct (Decimal.nzhead (Nat.to_uint n)).
Qed.

Lemma of_nat_inj n m : Str.of_nat n = Str.of_nat m → n = m.
Proof.
  unfold Str.of_nat. intros H.
  apply DecimalNat.Unsigned.to_uint_inj.
  apply (f_equal NilEmpty.uint_of_string) in H.
  rewrite !NilEmpty.usu in H. by injection H.
Qed.

Lemma lang_digits d : Re.lang (Re.Star (Re.Class Re.digit)) (NilEmpty.string_of_uint d).
Proof.
  induction d; simpl; [constructor|..];
    match goal with
    | |- Re.lang _ (String ?c ?s) => change (String c s) with (String c "" +:+ s)
    end; (constructor; [by constructor | done]).
Qed.

Lemma lang_of_nat n : Re.lang (Re.Plus (Re.Class Re.digit)) (Str.of_nat n).
Proof.
  unfold Str.of_nat, Re.Plus. pose proof (to_uint_not_nil n) as Hn.
  destruct (Nat.to_uint n) as [|d|d|d|d|d|d|d|d|d|d]; [done|..]; simpl;
    match goal with
    | |- Re.lang _ (String ?c ?s) => change (String c s) with (String c "" +:+ s)
    end; (constructor; [by constructor | apply lang_digits]).
Qed.

(** ** The names of the fused slots *)

Lemma qkv_name_lang (with_prefix is_weight : bool) (layer_id : nat) :
  Re.lang qkv_regex
    ((if with_prefix then "backbone_model." else "")
     +:+ ("encoder.all_encoder_layers."
          +:+ (Str.of_nat layer_id
               +:+ (".attn_qkv." +:+ (if is_weight then "weight" else "bias"))))).
Proof.
  unfold qkv_regex. constructor.
  - destruct with_prefix; [apply Re.lang_alt_r, lang_lit | apply Re.lang_alt_l; constructor].
  - constructor; [apply lang_lit|].
    constructor; [apply lang_of_nat|].
    constructor; [apply lang_lit|].
    destruct is_weight; [apply Re.lang_alt_l | apply Re.lang_alt_r]; apply lang_lit.
Qed.

Lemma match_anchored_lang body s :
  Re.lang body s → Re.match_anchored body s = true.
Proof.
  intros H. unfold Re.match_anchored. apply fullmatch_complete.
  rewrite <-(app_nil_r s). constructor; [done|]. apply Re.lang_alt_l. constructor.
Qed.

Lemma layer_mx_prefix convert_type layer_id :
  snd (layer_prefixes convert_type layer_id)
  = (if String.eqb convert_type "gen" || String.eqb convert_type "disc"
     then "backbone_model." else "")
    +:+ ("encoder.all_encoder_layers." +:+ Str.of_nat layer_id).
Proof.
  unfold layer_prefixes.
  destruct (String.eqb convert_type "gen"); [done|].
  by destruct (String.eqb convert_type "disc").
Qed.

Lemma elem_of_merger_filled convert_type num_layers key :
  key ∈ merger_filled convert_type num_layers ↔
  ∃ layer_id, layer_id < num_layers
    ∧ (key = snd (layer_prefixes convert_type layer_id) +:+ ".attn_qkv.weight"
       ∨ key = snd (layer_prefixes convert_type layer_id) +:+ ".attn_qkv.bias").
Proof.
  unfold merger_filled. rewrite elem_of_list_to_set, list_elem_of_In, in_flat_map.
  split.
  - intros (i & Hi & Hk). exists i. apply in_seq in Hi. split; [lia|].
    simpl in Hk. destruct Hk as [<-|[<-|[]]]; auto.
  - intros (i & Hi & Hk). exists i. split; [apply in_seq; lia|].
    simpl. destruct Hk as [->| ->]; auto.
Qed.

Lemma merger_filled_matches convert_type num_layers key :
  key ∈ merger_filled convert_type num_layers →
  Re.match_anchored qkv_regex key = true.
Proof.
  intros (i & _ & Hk)%elem_of_merger_filled.
  apply match_anchored_lang. rewrite layer_mx_prefix in Hk.
  destruct Hk as [-> | ->]; rewrite !app_assoc.
  - apply (qkv_name_lang _ true i).
  - apply (qkv_name_lang _ false i).
Qed.

(** ** The copy loop and the leftover check *)

Section StageFacts.
Context {A : Type}.
Implicit Types (h : @heap A) (tf_params : gmap string (Np.ndarray A)).
Implicit Types (mx_params : gmap string loc) (keys : gset string).

Lemma getitem_inv {V} (d : gmap string V) k v : getitem d k = inr v → d !! k = Some v.
Proof. unfold getitem. by destruct (d !! k); intros [= ->]. Qed.

Lemma set_data_inv l v h h' :
  set_data l v h = inr h' → Np.shape (h l) = Np.shape v ∧ h' = fn_insert l v h.
Proof. unfold set_data. case_bool_decide; [|done]. by intros [= <-]. Qed.

Lemma heap_insert_eq l (v : Np.ndarray A) h : fn_insert l v h l = v.
Proof. apply fn_lookup_insert. Qed.

Lemma heap_insert_ne l l' (v : Np.ndarray A) h : l ≠ l' → fn_insert l v h l' = h l'.
Proof. apply fn_lookup_insert_ne. Qed.

(** What one round of the copy loop does when it does not raise. *)
Lemma copy_step_inv tf_params mx_params h keys src dst h' keys' :
  copy_step tf_params mx_params (h, keys) (src, dst) = inr (h', keys') →
  ∃ v, tf_params !! src = Some v ∧
    match dst with
    | None => h' = h ∧ keys' = keys
    | Some d =>
        d ∈ keys ∧ keys' = keys ∖ {[d]} ∧
        ∃ l, mx_params !! d = Some l ∧
             h' = fn_insert l (if Str.endswith "kernel" src then Np.T v else v) h
    end.
Proof.
  unfold copy_step.
  destruct (getitem tf_params src) as [|v] eqn:Ev; [done|]. cbn [bind].
  apply getitem_inv in Ev. intros H. exists v. split; [done|].
  destruct dst as [d|]; [|by injection H as <- <-].
  unfold set_remove in H. case_bool_decide as Hd; [|done]. cbn [bind] in H.
  destruct (Str.endswith "kernel" src);
    (destruct (getitem mx_params d) as [|l] eqn:El; [done|]; cbn [bind] in H;
     apply getitem_inv in El;
     match type of H with
     | context [set_data l ?x h] =>
         destruct (set_data l x h) as [|h1] eqn:Eh; [done|]
     end;
     cbn [bind] in H; injection H as <- <-;
     apply set_data_inv in Eh as [_ ->]; eauto 10).
Qed.

Lemma touched_cons src dst (name_map : Dict.t (option string)) :
  touched ((src, dst) :: name_map)
  = (match dst with Some d => {[d]} | None => ∅ end) ∪ touched name_map.
Proof.
  unfold touched. destruct dst; simpl; [done|]. by rewrite (left_id_L ∅ (∪)).
Qed.

(** After the loop [all_keys] holds the target names that were not
    written. *)
Lemma copy_items_remaining tf_params mx_params items h keys h' keys' :
  copy_items tf_params mx_params items (h, keys) = inr (h', keys') →
  keys' = keys ∖ touched items.
Proof.
  revert h keys. induction items as [|[src dst] items IH]; intros h keys;
    cbn [copy_items].
  - intros [= <- <-]. unfold touched. simpl. set_solver.
  - destruct (copy_step tf_params mx_params (h, keys) (src, dst))
      as [|[h1 keys1]] eqn:E; cbn [bind]; [done|].
    intros ->%IH. rewrite touched_cons.
    apply copy_step_inv in E as (v & _ & E).
    destruct dst as [d|].
    + destruct E as (_ & -> & _). set_solver.
    + destruct E as [_ ->]. set_solver.
Qed.

Lemma copy_loop_remaining tf_params mx_params name_map h h' remaining :
  copy_loop tf_params mx_params name_map h = inr (h', remaining) →
  remaining = dom mx_params ∖ touched name_map.
Proof. apply copy_items_remaining. Qed.
End StageFacts.

Lemma elem_of_exempt convert_type key :
  key ∈ exempt convert_type ↔ convert_type = "gen" ∧ key ∈ disc_embed_params.
Proof.
  unfold exempt. destruct (String.eqb_spec convert_type "gen") as [->|Hn].
  - naive_solver.
  - split; [by intros ?%not_elem_of_empty | by intros [? _]].
Qed.

Lemma check_key_spec convert_type key :
  check_key convert_type key =
    if bool_decide (key ∈ exempt convert_type) || Re.match_anchored qkv_regex key
    then inr tt
    else inl (AssertionError (Some ("Parameter key " +:+ key +:+ " mismatch"))).
Proof.
  unfold check_key, exempt.
  destruct (String.eqb convert_type "gen"); cbn [andb].
  - by destruct (bool_decide (key ∈ disc_embed_params)), (Re.match_anchored qkv_regex key).
  - rewrite (bool_decide_eq_false_2 (key ∈ ∅)) by apply not_elem_of_empty.
    by destruct (Re.match_anchored qkv_regex key).
Qed.

Lemma check_keys_ok convert_type keys :
  check_keys convert_type keys = inr tt ↔
  ∀ key, key ∈ keys → key ∈ exempt convert_type ∨ Re.match_anchored qkv_regex key = true.
Proof.
  induction keys as [|k keys IH]; simpl.
  - split; [by intros _ ? ?%elem_of_nil | done].
  - rewrite check_key_spec.
    destruct (bool_decide (k ∈ exempt convert_type) || Re.match_anchored qkv_regex k) eqn:E;
      cbn [bind].
    + rewrite IH. apply orb_true_iff in E. rewrite bool_decide_eq_true in E.
      split.
      * intros H key [->|Hin]%elem_of_cons; auto.
      * intros H key Hin. apply H. by right.
    + apply orb_false_iff in E as [E1 E2]. rewrite bool_decide_eq_false in E1.
      split; [done|]. intros H. destruct (H k) as [?|?]; [by left|done|congruence].
Qed.

Lemma check_keys_raises convert_type keys :
  (∃ msg, check_keys convert_type keys = inl (AssertionError msg)) ↔
  ∃ key, key ∈ keys ∧ (key ∉ exempt convert_type)
         ∧ Re.match_anchored qkv_regex key = false.
Proof.
  induction keys as [|k keys IH]; simpl.
  - split; [by intros [? ?] | intros (? & H & _); by apply elem_of_nil in H].
  - rewrite check_key_spec.
    destruct (bool_decide (k ∈ exempt convert_type) || Re.match_anchored qkv_regex k) eqn:E;
      cbn [bind].
    + rewrite IH. apply orb_true_iff in E. rewrite bool_decide_eq_true in E.
      split.
      * intros (key & Hin & Hk). exists key. split; [by right|done].
      * intros (key & [->|Hin]%elem_of_cons & Hne & Hm); [|by exists key].
        destruct E; [done|congruence].
    + apply orb_false_iff in E as [E1 E2]. rewrite bool_decide_eq_false in E1.
      split; [|by eexists]. intros _. exists k. split; [by left|done].
Qed.

(** C1. After the copy loop, the leftover check passes exactly when
    every target name that is left (all the names of the model, less
    those written by the loop, less those the merger fills, less, for
    the generator, the shared names of [disc_embed_params]) matches
    the pattern of the fused slots; it raises the assertion of line
    374 exactly when one of them does not. *)
Theorem C1_leftover_names_must_match_pattern {A : Type}
    (tf_params : gmap string (Np.ndarray A)) (mx_params : gmap string loc)
    (name_map : Dict.t (option string)) (h h' : @heap A) (remaining : gset string)
    (convert_type : string) (num_layers : nat) :
  copy_loop tf_params mx_params name_map h = inr (h', remaining) →
  let leftover :=
    dom mx_params ∖ touched name_map ∖ merger_filled convert_type num_layers
      ∖ exempt convert_type in
  (check_leftover convert_type remaining = inr tt
   ↔ ∀ key, key ∈ leftover → Re.match_anchored qkv_regex key = true)
  ∧ ((∃ msg, check_leftover convert_type remaining = inl (AssertionError msg))
     ↔ ∃ key, key ∈ leftover ∧ Re.match_anchored qkv_regex key = false).
Proof.
  intros ->%copy_loop_remaining leftover. subst leftover.
  unfold check_leftover. rewrite check_keys_ok, check_keys_raises.
  split; split.
  - intros H key Hk. destruct (H key) as [?|?]; [|set_solver|done].
    apply elem_of_elements. set_solver.
  - intros H key Hk%elem_of_elements.
    destruct (decide (key ∈ exempt convert_type)); [by left|]. right.
    destruct (decide (key ∈ merger_filled convert_type num_layers)) as [Hm|Hm].
    + by eapply merger_filled_matches.
    + apply H. set_solver.
  - intros (key & Hk%elem_of_elements & Hne & Hf). exists key. split; [|done].
    repeat (apply elem_of_difference; split); try done.
    + set_solver.
    + set_solver.
    + intros Hm%merger_filled_matches. congruence.
  - intros (key & Hk & Hf). exists key.
    split; [apply elem_of_elements; set_solver|]. split; [set_solver|done].
Qed.

Lemma C1_witness :
  let leftover :=
    dom ex_mx_params ∖ touched ex_name_map ∖ merger_filled "backbone" 1
      ∖ exempt "backbone" in
  let remaining : gset string :=
    {[ "encoder.all_encoder_layers.0.attn_qkv.weight"; "pooler.weight" ]} in
  (check_leftover "backbone" remaining = inr tt
   ↔ ∀ key, key ∈ leftover → Re.match_anchored qkv_regex key = true)
  ∧ ((∃ msg, check_leftover "backbone" remaining = inl (AssertionError msg))
     ↔ ∃ key, key ∈ leftover ∧ Re.match_anchored qkv_regex key = false).
Proof.
  apply (C1_leftover_names_must_match_pattern ex_tf_params ex_mx_params ex_name_map
           ex_heap (fn_insert 0 (Np.Ndarray [2] [1%Z; 2%Z]) ex_heap)
           {[ "encoder.all_encoder_layers.0.attn_qkv.weight"; "pooler.weight" ]}
           "backbone" 1).
  vm_compute. reflexivity.
Defined.

Example leftover_check_ex :
  check_leftover "backbone"
    {[ "encoder.all_encoder_layers.0.attn_qkv.weight"; "pooler.weight" ]}
  = inl (AssertionError (Some "Parameter key pooler.weight mismatch"))
  ∧ check_leftover "backbone"
      {[ "encoder.all_encoder_layers.11.attn_qkv.bias";
         "backbone_model.encoder.all_encoder_layers.0.attn_qkv.weight" ]}
    = inr tt
  ∧ check_leftover "gen" {[ "mlm_decoder.3.weight" ]} = inr tt
  ∧ check_leftover "disc" {[ "mlm_decoder.3.weight" ]}
    = inl (AssertionError (Some "Parameter key mlm_decoder.3.weight mismatch")).
Proof. repeat split; vm_compute; reflexivity. Qed.

(** ** The copy loop: what is written *)

Section CopyFacts.
Context {A : Type}.
Implicit Types (h : @heap A) (tf_params : gmap string (Np.ndarray A)).
Implicit Types (mx_params : gmap string loc) (keys : gset string).
Implicit Types (items : Dict.t (option string)).

Lemma unshared_subseteq mx_params (names names' : gset string) :
  names' ⊆ names → unshared mx_params names → unshared mx_params names'.
Proof. intros Hsub Hu d1 d2 l H1 H2. apply Hu; auto. Qed.

(** A run that does not raise writes names of [all_keys] only. *)
Lemma copy_items_touched_subseteq tf_params mx_params items h keys h' keys' :
  copy_items tf_params mx_params items (h, keys) = inr (h', keys') →
  touched items ⊆ keys.
Proof.
  revert h keys. induction items as [|[src dst] items IH]; intros h keys;
    cbn [copy_items].
  - intros _. unfold touched. simpl. set_solver.
  - destruct (copy_step tf_params mx_params (h, keys) (src, dst))
      as [|[h1 keys1]] eqn:E; cbn [bind]; [done|].
    intros Hsub%IH. rewrite touched_cons.
    apply copy_step_inv in E as (v & _ & E).
    destruct dst as [d|].
    + destruct E as (Hd & -> & _). set_solver.
    + destruct E as [_ ->]. set_solver.
Qed.

(** A parameter that belongs to none of the names written keeps its
    value. *)
Lemma copy_items_frame tf_params mx_params items h keys h' keys' l :
  copy_items tf_params mx_params items (h, keys) = inr (h', keys') →
  (∀ d, d ∈ touched items → mx_params !! d ≠ Some l) →
  h' l = h l.
Proof.
  revert h keys. induction items as [|[src dst] items IH]; intros h keys;
    cbn [copy_items].
  - by intros [= <- <-].
  - destruct (copy_step tf_params mx_params (h, keys) (src, dst))
      as [|[h1 keys1]] eqn:E; cbn [bind]; [done|].
    intros Hrest Hl. rewrite touched_cons in Hl.
    rewrite (IH _ _ Hrest) by (intros d Hd; apply Hl; set_solver).
    apply copy_step_inv in E as (v & _ & E).
    destruct dst as [d|].
    + destruct E as (_ & _ & l' & Hl' & ->).
      apply heap_insert_ne. intros <-. apply (Hl d); [set_solver|done].
    + by destruct E as [-> _].
Qed.

(** When the names written do not share a parameter, each target
    still holds at the end of the loop what its pair assigned. *)
Lemma copy_items_written tf_params mx_params items h keys h' keys' :
  copy_items tf_params mx_params items (h, keys) = inr (h', keys') →
  unshared mx_params (touched items) →
  ∀ src dst, (src, Some dst) ∈ items →
    ∃ v l, tf_params !! src = Some v ∧ mx_params !! dst = Some l
      ∧ h' l = if Str.endswith "kernel" src then Np.T v else v.
Proof.
  revert h keys. induction items as [|[src0 dst0] items IH]; intros h keys;
    cbn [copy_items].
  - intros _ _ src dst Hin. by apply elem_of_nil in Hin.
  - destruct (copy_step tf_params mx_params (h, keys) (src0, dst0))
      as [|[h1 keys1]] eqn:E; cbn [bind]; [done|].
    intros Hrest Hu src dst Hin.
    apply elem_of_cons in Hin as [[= -> <-]|Hin].
    + apply copy_step_inv in E as (v & Hv & Hd & -> & l & Hl & ->).
      exists v, l. split; [done|]. split; [done|].
      rewrite (copy_items_frame _ _ _ _ _ _ _ l Hrest).
      * apply heap_insert_eq.
      * intros d Hdt Hdl.
        assert (d = dst) as ->.
        { apply (Hu d dst l); [rewrite touched_cons; set_solver..|done|done]. }
        apply copy_items_touched_subseteq in Hrest. set_solver.
    + apply (IH _ _ Hrest); [|done].
      eapply unshared_subseteq; [|done]. rewrite touched_cons. set_solver.
Qed.

(** On two axes [.T] exchanges the two trailing axes. *)
Lemma T_rank_2 (v : Np.ndarray A) :
  Np.ndim v = 2 → Np.swap_trailing v = inr (Np.T v).
Proof. intros H. unfold Np.swap_trailing, Np.T. by rewrite H. Qed.
End CopyFacts.

(** Beyond two axes [.T], which reverses all the axes, is no longer
    the exchange of the two trailing ones. *)
Example T_on_three_axes_ex :
  let x : Np.ndarray Z := Np.Ndarray [2; 2; 2] [0; 1; 2; 3; 4; 5; 6; 7]%Z in
  Np.T x = Np.Ndarray [2; 2; 2] [0; 4; 2; 6; 1; 5; 3; 7]%Z
  ∧ Np.swap_trailing x = inr (Np.Ndarray [2; 2; 2] [0; 2; 1; 3; 4; 6; 5; 7]%Z).
Proof. split; vm_compute; reflexivity. Qed.

(** ** The names of the fused slots are distinct *)

Lemma all_digits_of_nat n : Str.all_digits (Str.of_nat n) = true.
Proof.
  unfold Str.of_nat. generalize (Nat.to_uint n). intros d.
  induction d; simpl; done.
Qed.

Lemma digits_split ds1 ds2 t1 t2 :
  Str.all_digits ds1 = true → Str.all_digits ds2 = true →
  ds1 +:+ String "." t1 = ds2 +:+ String "." t2 →
  ds1 = ds2 ∧ t1 = t2.
Proof.
  revert ds2. induction ds1 as [|c1 ds1 IH]; intros [|c2 ds2] H1 H2 Heq.
  - by injection Heq.
  - rewrite app_cons in Heq. injection Heq as <- _. done.
  - rewrite app_cons in Heq. injection Heq as -> _. done.
  - rewrite !app_cons in Heq. injection Heq as -> Heq.
    simpl in H1, H2. destruct (Ascii.is_nat c2); [|done].
    destruct (IH ds2 H1 H2 Heq) as [-> ->]. done.
Qed.

Lemma slot_name convert_type layer_id suffix :
  snd (layer_prefixes convert_type layer_id) +:+ String "." suffix
  = role_slot_prefix convert_type
    +:+ ("encoder.all_encoder_layers." +:+ (Str.of_nat layer_id +:+ String "." suffix)).
Proof. rewrite layer_mx_prefix. unfold role_slot_prefix. by rewrite !app_assoc. Qed.

Lemma slot_name_inj convert_type i j suffix1 suffix2 :
  snd (layer_prefixes convert_type i) +:+ String "." suffix1
  = snd (layer_prefixes convert_type j) +:+ String "." suffix2 →
  i = j ∧ suffix1 = suffix2.
Proof.
  rewrite !slot_name. intros H.
  apply String.app_inj, String.app_inj in H.
  apply digits_split in H as [Hd ->]; [|apply all_digits_of_nat..].
  split; [by apply of_nat_inj | done].
Qed.

Lemma layer_slots_disjoint convert_type i j d :
  d ∈ layer_slots convert_type i → d ∈ layer_slots convert_type j → i = j.
Proof.
  unfold layer_slots. rewrite !elem_of_cons, !elem_of_nil.
  intros [-> | [-> | []]] [H | [H | []]];
    by apply slot_name_inj in H as [? ?].
Qed.

(** ** The merger: what is written *)

Ltac bind_inv H :=
  match type of H with
  | bind ?m _ = inr _ =>
      let E := fresh "E" in
      destruct m eqn:E; cbn [bind] in H; [discriminate H|]
  end.

Section MergeFacts.
Context {A : Type}.
Implicit Types (h : @heap A) (tf_params : gmap string (Np.ndarray A)).
Implicit Types (mx_params : gmap string loc).

Lemma convert_qkv_weights_inv tf_params mx_params tf_prefix mx_prefix h h' :
  convert_qkv_weights tf_params mx_params tf_prefix mx_prefix h = inr h' →
  ∃ fused_weight fused_bias weight_param bias_param,
    mx_params !! (mx_prefix +:+ ".attn_qkv.weight") = Some weight_param
    ∧ mx_params !! (mx_prefix +:+ ".attn_qkv.bias") = Some bias_param
    ∧ h' = fn_insert bias_param fused_bias
             (fn_insert weight_param (Np.T fused_weight) h)
    ∧ (weight_param ≠ bias_param →
       fused_in tf_params mx_params tf_prefix mx_prefix h').
Proof.
  unfold convert_qkv_weights. intros H. repeat bind_inv H.
  repeat match goal with
         | E : getitem _ _ = inr _ |- _ => apply getitem_inv in E
         | E : set_data _ _ _ = inr _ |- _ => apply set_data_inv in E as [_ ?]
         end.
  subst. do 4 eexists. split; [done|]. split; [done|]. split; [done|].
  intros Hne. unfold fused_in. do 10 eexists.
  repeat (split; [done|]).
  split; [|apply heap_insert_eq].
  rewrite heap_insert_ne by done. apply heap_insert_eq.
Qed.

Lemma merge_layers_frame tf_params mx_params convert_type layers h h' l :
  merge_layers tf_params mx_params convert_type layers h = inr h' →
  (∀ d, d ∈ flat_map (layer_slots convert_type) layers → mx_params !! d ≠ Some l) →
  h' l = h l.
Proof.
  revert h. induction layers as [|i layers IH]; intros h; cbn [merge_layers].
  - by intros [= <-].
  - destruct (layer_prefixes convert_type i) as [tf_prefix mx_prefix] eqn:Ep.
    intros H Hl. bind_inv H.
    rewrite (IH _ H).
    2:{ intros d Hd. apply Hl. cbn [flat_map]. apply elem_of_app. by right. }
    apply convert_qkv_weights_inv in E as (w & b & lw & lb & Hw & Hb & -> & _).
    assert (Hs : ∀ d, d ∈ layer_slots convert_type i → mx_params !! d ≠ Some l).
    { intros d Hd. apply Hl. cbn [flat_map]. apply elem_of_app. by left. }
    unfold layer_slots in Hs. rewrite Ep in Hs. cbn [snd] in Hs.
    rewrite !heap_insert_ne; [done|..].
    + intros <-. eapply Hs; [|done]. set_solver.
    + intros <-. eapply Hs; [|done]. set_solver.
Qed.

Lemma merge_layers_written tf_params mx_params convert_type layers h h' :
  merge_layers tf_params mx_params convert_type layers h = inr h' →
  NoDup layers →
  unshared mx_params (list_to_set (flat_map (layer_slots convert_type) layers)) →
  ∀ layer_id, layer_id ∈ layers →
    fused_in tf_params mx_params
      (layer_prefixes convert_type layer_id).1
      (layer_prefixes convert_type layer_id).2 h'.
Proof.
  revert h. induction layers as [|i layers IH]; intros h; cbn [merge_layers].
  - intros _ _ _ j Hj. by apply elem_of_nil in Hj.
  - destruct (layer_prefixes convert_type i) as [tf_prefix mx_prefix] eqn:Ep.
    intros H [Hi Hnd]%NoDup_cons Hu j Hj. bind_inv H.
    apply elem_of_cons in Hj as [->|Hj].
    2:{ apply (IH _ H Hnd); [|done].
        eapply unshared_subseteq; [|done]. cbn [flat_map].
        rewrite list_to_set_app_L. set_solver. }
    rewrite Ep. cbn [fst snd].
    apply convert_qkv_weights_inv in E as (w & b & lw & lb & Hw & Hb & -> & Hf).
    assert (Hwi : mx_prefix +:+ ".attn_qkv.weight" ∈ layer_slots convert_type i).
    { unfold layer_slots. rewrite Ep. set_solver. }
    assert (Hbi : mx_prefix +:+ ".attn_qkv.bias" ∈ layer_slots convert_type i).
    { unfold layer_slots. rewrite Ep. set_solver. }
    assert (Hin : ∀ d, d ∈ layer_slots convert_type i →
              d ∈ (list_to_set (flat_map (layer_slots convert_type) (i :: layers))
                   : gset string)).
    { intros d Hd. cbn [flat_map]. rewrite list_to_set_app_L. set_solver. }
    assert (Hne : lw ≠ lb).
    { intros <-.
      assert (Heq : mx_prefix +:+ ".attn_qkv.weight" = mx_prefix +:+ ".attn_qkv.bias")
        by (apply (Hu _ _ lw); auto).
      by apply String.app_inj in Heq. }
    assert (Hrest : ∀ d l, d ∈ layer_slots convert_type i → mx_params !! d = Some l →
              merge_layers tf_params mx_params convert_type layers
                (fn_insert lb b (fn_insert lw (Np.T w) h)) = inr h' →
              h' l = fn_insert lb b (fn_insert lw (Np.T w) h) l).
    { intros d l Hd Hl Hrun. apply (merge_layers_frame _ _ _ _ _ _ _ Hrun).
      intros d' Hd' Hl'.
      assert (d' = d) as ->.
      { apply (Hu d' d l); [|by apply Hin|done|done].
        cbn [flat_map]. rewrite list_to_set_app_L. set_solver. }
      apply list_elem_of_In, in_flat_map in Hd' as (j & Hj%list_elem_of_In & Hdj).
      apply list_elem_of_In in Hdj.
      rewrite (layer_slots_disjoint _ _ _ _ Hd Hdj) in Hi. done. }
    destruct (Hf Hne) as (q & k & v & qb & kb & vb & w' & b' & lw' & lb' & Hq & Hk
                          & Hv & Hqb & Hkb & Hvb & Hcw & Hcb & Hlw & Hlb & Hhw & Hhb).
    unfold fused_in. exists q, k, v, qb, kb, vb, w', b', lw', lb'.
    repeat (split; [done|]).
    split.
    + rewrite (Hrest _ _ Hwi Hlw H). done.
    + rewrite (Hrest _ _ Hbi Hlb H). done.
Qed.
End MergeFacts.

(** The source prefix of a layer, written out. *)
Lemma layer_tf_prefix convert_type layer_id :
  fst (layer_prefixes convert_type layer_id)
  = (if String.eqb convert_type "gen" then "generator/encoder/layer_"
     else "electra/encoder/layer_")
    +:+ (Str.of_nat layer_id +:+ "/attention/self").
Proof.
  unfold layer_prefixes.
  destruct (String.eqb convert_type "gen"); [done|].
  by destruct (String.eqb convert_type "disc").
Qed.

(** C2. When the merger ends without an exception then, for every
    layer [layer_id] below [num_layers] and whatever the role, the
    fused weight slot of that layer,
    [encoder.all_encoder_layers.<layer_id>.attn_qkv.weight] (after
    [backbone_model.] for the roles ["disc"] and ["gen"]), holds [.T]
    of the concatenation along axis 1, the output axis of a kernel, of
    the query, key and value kernels of that same layer,
    [electra/encoder/layer_<layer_id>/attention/self/.../kernel]
    ([generator/...] for the role ["gen"]), and the fused bias slot
    of the layer holds the concatenation along axis 0 of the three
    biases of the layer, not transposed. The fused slots are assumed
    not to share a parameter. *)
Theorem C2_fused_slots_hold_the_concatenation {A : Type}
    (tf_params : gmap string (Np.ndarray A)) (mx_params : gmap string loc)
    (convert_type : string) (num_layers : nat) (h h' : @heap A) :
  merge_qkv tf_params mx_params convert_type num_layers h = inr h' →
  unshared mx_params (merger_filled convert_type num_layers) →
  ∀ layer_id, layer_id < num_layers →
    ∃ tf_prefix mx_prefix
      query_weight key_weight value_weight query_bias key_bias value_bias
      fused_weight fused_bias weight_param bias_param,
      tf_prefix
      = (if String.eqb convert_type "gen" then "generator/encoder/layer_"
         else "electra/encoder/layer_")
        +:+ (Str.of_nat layer_id +:+ "/attention/self")
      ∧ mx_prefix
        = (if String.eqb convert_type "gen" || String.eqb convert_type "disc"
           then "backbone_model." else "")
          +:+ ("encoder.all_encoder_layers." +:+ Str.of_nat layer_id)
      ∧ tf_params !! (tf_prefix +:+ "/query/kernel") = Some query_weight
      ∧ tf_params !! (tf_prefix +:+ "/key/kernel") = Some key_weight
      ∧ tf_params !! (tf_prefix +:+ "/value/kernel") = Some value_weight
      ∧ tf_params !! (tf_prefix +:+ "/query/bias") = Some query_bias
      ∧ tf_params !! (tf_prefix +:+ "/key/bias") = Some key_bias
      ∧ tf_params !! (tf_prefix +:+ "/value/bias") = Some value_bias
      ∧ Np.concatenate [query_weight; key_weight; value_weight] 1 = inr fused_weight
      ∧ Np.concatenate [query_bias; key_bias; value_bias] 0 = inr fused_bias
      ∧ mx_params !! (mx_prefix +:+ ".attn_qkv.weight") = Some weight_param
      ∧ mx_params !! (mx_prefix +:+ ".attn_qkv.bias") = Some bias_param
      ∧ h' weight_param = Np.T fused_weight
      ∧ h' bias_param = fused_bias.
Proof.
  intros Hrun Hu layer_id Hlt.
  assert (Hin : layer_id ∈ seq 0 num_layers).
  { apply list_elem_of_In, in_seq. lia. }
  pose proof (merge_layers_written _ _ _ _ _ _ Hrun (NoDup_seq 0 num_layers) Hu
                layer_id Hin) as Hf.
  exists (fst (layer_prefixes convert_type layer_id)),
         (snd (layer_prefixes convert_type layer_id)).
  destruct Hf as (q & k & v & qb & kb & vb & w & b & lw & lb & Hf).
  exists q, k, v, qb, kb, vb, w, b, lw, lb.
  split; [apply layer_tf_prefix|]. split; [apply layer_mx_prefix|]. exact Hf.
Qed.

Lemma ex2_unshared : unshared ex2_mx_params (merger_filled "disc" 1).
Proof.
  intros d1 d2 l (i & Hi & H1)%elem_of_merger_filled (j & Hj & H2)%elem_of_merger_filled.
  assert (i = 0) as -> by lia. assert (j = 0) as -> by lia.
  destruct H1 as [-> | ->], H2 as [-> | ->]; vm_compute; congruence.
Qed.

Lemma ex6_unshared : unshared ex6_mx_params (merger_filled "disc" 2).
Proof.
  intros d1 d2 l (i & Hi & H1)%elem_of_merger_filled (j & Hj & H2)%elem_of_merger_filled.
  assert (i = 0 ∨ i = 1) as [-> | ->] by lia;
    (assert (j = 0 ∨ j = 1) as [-> | ->] by lia);
    destruct H1 as [-> | ->], H2 as [-> | ->]; vm_compute; congruence.
Qed.

(** Two layers of the discriminator, at the second layer: its slots
    are filled from the tensors of [layer_1]. *)
Lemma C2_witness :
  ∃ tf_prefix mx_prefix
    query_weight key_weight value_weight query_bias key_bias value_bias
    fused_weight fused_bias weight_param bias_param,
    tf_prefix
    = (if String.eqb "disc" "gen" then "generator/encoder/layer_"
       else "electra/encoder/layer_")
      +:+ (Str.of_nat 1 +:+ "/attention/self")
    ∧ mx_prefix
      = (if String.eqb "disc" "gen" || String.eqb "disc" "disc"
         then "backbone_model." else "")
        +:+ ("encoder.all_encoder_layers." +:+ Str.of_nat 1)
    ∧ ex6_tf_params !! (tf_prefix +:+ "/query/kernel") = Some query_weight
    ∧ ex6_tf_params !! (tf_prefix +:+ "/key/kernel") = Some key_weight
    ∧ ex6_tf_params !! (tf_prefix +:+ "/value/kernel") = Some value_weight
    ∧ ex6_tf_params !! (tf_prefix +:+ "/query/bias") = Some query_bias
    ∧ ex6_tf_params !! (tf_prefix +:+ "/key/bias") = Some key_bias
    ∧ ex6_tf_params !! (tf_prefix +:+ "/value/bias") = Some value_bias
    ∧ Np.concatenate [query_weight; key_weight; value_weight] 1 = inr fused_weight
    ∧ Np.concatenate [query_bias; key_bias; value_bias] 0 = inr fused_bias
    ∧ ex6_mx_params !! (mx_prefix +:+ ".attn_qkv.weight") = Some weight_param
    ∧ ex6_mx_params !! (mx_prefix +:+ ".attn_qkv.bias") = Some bias_param
    ∧ ex6_heap' weight_param = Np.T fused_weight
    ∧ ex6_heap' bias_param = fused_bias.
Proof.
  apply (C2_fused_slots_hold_the_concatenation ex6_tf_params ex6_mx_params "disc" 2
           ex4_heap ex6_heap').
  - vm_compute. reflexivity.
  - exact ex6_unshared.
  - lia.
Defined.

(** The two layers of [ex6_tf_params]: each pair of slots receives the
    tensors of its own layer. *)
Example merge_qkv_two_layers_ex :
  merge_qkv ex6_tf_params ex6_mx_params "disc" 2 ex4_heap = inr ex6_heap'
  ∧ ex6_mx_params !! "backbone_model.encoder.all_encoder_layers.0.attn_qkv.weight" = Some 0
  ∧ ex6_mx_params !! "backbone_model.encoder.all_encoder_layers.1.attn_qkv.weight" = Some 2
  ∧ ex6_mx_params !! "backbone_model.encoder.all_encoder_layers.1.attn_qkv.bias" = Some 3
  ∧ ex6_heap' 0 = Np.Ndarray [3; 2] [1; 2; 3; 4; 5; 6]%Z
  ∧ ex6_heap' 2 = Np.Ndarray [3; 2] [21; 22; 23; 24; 25; 26]%Z
  ∧ ex6_heap' 3 = Np.Ndarray [3] [27; 28; 29]%Z.
Proof. repeat split; vm_compute; reflexivity. Qed.

Example merge_qkv_ex :
  ∃ h', merge_qkv ex2_tf_params ex2_mx_params "disc" 1 ex2_heap = inr h'
    ∧ h' 0 = Np.Ndarray [3; 2] [1; 2; 3; 4; 5; 6]%Z
    ∧ h' 1 = Np.Ndarray [3] [7; 8; 9]%Z
    ∧ Np.concatenate [Np.Ndarray [2; 1] [1; 2]%Z; Np.Ndarray [2; 1] [3; 4]%Z;
                      Np.Ndarray [2; 1] [5; 6]%Z] 1
      = inr (Np.Ndarray [2; 3] [1; 3; 5; 2; 4; 6]%Z).
Proof.
  eexists. split; [vm_compute; reflexivity|]. repeat split; vm_compute; reflexivity.
Qed.

(** A layer without its key kernel: the merger raises at that name. *)
Example merge_qkv_missing_ex :
  merge_qkv (delete "electra/encoder/layer_0/attention/self/key/kernel" ex2_tf_params)
    ex2_mx_params "disc" 1 ex2_heap
  = inl (KeyError "electra/encoder/layer_0/attention/self/key/kernel").
Proof. vm_compute. reflexivity. Qed.

Example transpose_ex :
  Np.T (Np.Ndarray [2; 3] [1; 2; 3; 4; 5; 6]%Z) = Np.Ndarray [3; 2] [1; 4; 2; 5; 3; 6]%Z
  ∧ Np.T (Np.T (Np.Ndarray [2; 3] [1; 2; 3; 4; 5; 6]%Z))
    = Np.Ndarray [2; 3] [1; 2; 3; 4; 5; 6]%Z
  ∧ Np.T (Np.Ndarray [3] [1; 2; 3]%Z) = Np.Ndarray [3] [1; 2; 3]%Z.
Proof. repeat split; vm_compute; reflexivity. Qed.

(** * Further properties *)

(** ** The order and the keys of the name map *)

Lemma dict_set_fresh {V} (d : Dict.t V) k v :
  k ∉ Dict.keys d → Dict.set d k v = (d ++ [(k, v)])%list.
Proof.
  induction d as [|[k' v'] d IH]; simpl; [done|].
  intros Hk. apply not_elem_of_cons in Hk as [Hne Hk].
  destruct (String.eqb_spec k' k) as [->|_]; [done|].
  by rewrite IH.
Qed.

Lemma dict_keys_set {V} (d : Dict.t V) k v :
  Dict.keys (Dict.set d k v)
  = if bool_decide (k ∈ Dict.keys d) then Dict.keys d else (Dict.keys d ++ [k])%list.
Proof.
  induction d as [|[k' v'] d IH]; simpl; [done|].
  destruct (String.eqb_spec k' k) as [->|Hne]; simpl.
  - by rewrite bool_decide_eq_true_2 by left.
  - rewrite IH. unfold Dict.keys.
    assert (bool_decide (k ∈ k' :: map fst d) = bool_decide (k ∈ map fst d)) as ->.
    { apply bool_decide_ext. rewrite elem_of_cons.
      split; [by intros [->|?] | by right]. }
    by destruct (bool_decide (k ∈ map fst d)).
Qed.

Lemma dict_set_keys_NoDup {V} (d : Dict.t V) k v :
  NoDup (Dict.keys d) → NoDup (Dict.keys (Dict.set d k v)).
Proof.
  intros Hnd. rewrite dict_keys_set. case_bool_decide; [done|].
  apply NoDup_app. split; [done|]. split.
  - intros x Hx ->%list_elem_of_singleton. done.
  - apply NoDup_singleton.
Qed.

Lemma name_map_loop_keys_NoDup rules convert_type tf_names d m :
  name_map_loop rules convert_type tf_names d = inr m →
  NoDup (Dict.keys d) → NoDup (Dict.keys m).
Proof.
  revert d. induction tf_names as [|x tf_names IH]; intros d; cbn [name_map_loop].
  - by intros [= <-].
  - intros H Hnd.
    destruct (name_map_step rules convert_type d x) as [|d1] eqn:E;
      cbn [bind] in H; [done|].
    apply (IH _ H).
    unfold name_map_step in E.
    destruct (role_filter convert_type x) as [|[t|]]; cbn [bind] in E; [done|..].
    + destruct (Str.contains "self/" x); injection E as <-;
        by apply dict_set_keys_NoDup.
    + by injection E as <-.
Qed.

Lemma name_map_loop_ordered rules convert_type tf_names d :
  supported convert_type →
  NoDup tf_names →
  (∀ n, n ∈ tf_names → n ∉ Dict.keys d) →
  name_map_loop rules convert_type tf_names d
  = inr (d ++ map (fun n => (n, entry rules convert_type n))
                  (List.filter (passes convert_type) tf_names))%list.
Proof.
  intros Hs. revert d.
  induction tf_names as [|x tf_names IH]; intros d Hnd Hfresh; cbn [name_map_loop].
  - simpl. by rewrite List.app_nil_r.
  - apply NoDup_cons in Hnd as [Hx Hnd].
    rewrite name_map_step_supported by done. cbn [bind List.filter].
    destruct (passes convert_type x) eqn:Hp.
    + rewrite dict_set_fresh by (apply Hfresh; left).
      rewrite IH; [by rewrite <-List.app_assoc|done|].
      intros n Hn. unfold Dict.keys. rewrite map_app. simpl.
      rewrite elem_of_app, list_elem_of_singleton.
      intros [Hd | ->]; [|done].
      apply (Hfresh n); [by right|done].
    + apply IH; [done|]. intros n Hn. apply Hfresh. by right.
Qed.

(** X1. For a supported role the name map has no key twice, whatever
    the list of names; and when the list has no name twice (as the
    sorted keys of a checkpoint) the name map lists the names that
    pass the role filter in the order of the list, each with its
    entry. *)
Theorem name_map_keeps_the_order_of_the_names
    (tf_names : list string) (convert_type : string) :
  supported convert_type →
  ∃ m, get_name_map tf_names convert_type = inr m
    ∧ NoDup (Dict.keys m)
    ∧ (NoDup tf_names →
       m = map (fun n => (n, entry CONVERT_MAP convert_type n))
             (List.filter (passes convert_type) tf_names)).
Proof.
  intros Hs.
  destruct (get_name_map_with_spec CONVERT_MAP tf_names convert_type Hs) as (m & Hm & _).
  exists m. split; [done|]. split.
  - apply (name_map_loop_keys_NoDup _ _ _ _ _ Hm). apply NoDup_nil_2.
  - intros Hnd. unfold get_name_map_with in Hm.
    rewrite (name_map_loop_ordered CONVERT_MAP convert_type tf_names [] Hs Hnd) in Hm.
    + by injection Hm as <-.
    + intros n _. apply not_elem_of_nil.
Qed.

Lemma name_map_keeps_the_order_of_the_names_witness :
  ∃ m, get_name_map ["generator/embeddings_project/kernel";
                     "electra/embeddings/word_embeddings";
                     "discriminator_predictions/dense/bias"] "disc" = inr m
    ∧ NoDup (Dict.keys m)
    ∧ (NoDup ["generator/embeddings_project/kernel";
              "electra/embeddings/word_embeddings";
              "discriminator_predictions/dense/bias"] →
       m = map (fun n => (n, entry CONVERT_MAP "disc" n))
             (List.filter (passes "disc")
                ["generator/embeddings_project/kernel";
                 "electra/embeddings/word_embeddings";
                 "discriminator_predictions/dense/bias"])).
Proof.
  apply (name_map_keeps_the_order_of_the_names
           ["generator/embeddings_project/kernel";
            "electra/embeddings/word_embeddings";
            "discriminator_predictions/dense/bias"] "disc").
  right. left. reflexivity.
Defined.

(** X2. The discriminator and the generator split the names between
    them: every name of the list is a key of exactly one of the two
    name maps. *)
Theorem disc_and_gen_partition_the_names (tf_names : list string) (n : string) :
  n ∈ tf_names →
  ∃ md mg, get_name_map tf_names "disc" = inr md
    ∧ get_name_map tf_names "gen" = inr mg
    ∧ (is_Some (Dict.get md n) ∨ is_Some (Dict.get mg n))
    ∧ ¬ (is_Some (Dict.get md n) ∧ is_Some (Dict.get mg n)).
Proof.
  intros Hin.
  destruct (name_map_domain CONVERT_MAP tf_names "disc") as (md & Hd & Hdom);
    [by right; left|].
  destruct (name_map_domain CONVERT_MAP tf_names "gen") as (mg & Hg & Hgom);
    [by right; right|].
  exists md, mg. split; [done|]. split; [done|].
  destruct (Hdom n) as [-> _]. destruct (Hgom n) as [-> _].
  change (passes "disc" n) with (negb (Str.contains "generator" n)).
  change (passes "gen" n) with (Str.contains "generator" n).
  destruct (Str.contains "generator" n); simpl; split; try tauto.
  - intros [[_ ?] _]. done.
  - intros [_ [_ ?]]. done.
Qed.

Lemma disc_and_gen_partition_the_names_witness :
  ∃ md mg,
    get_name_map ["electra/embeddings/word_embeddings"; "generator_predictions/output_bias"]
      "disc" = inr md
    ∧ get_name_map ["electra/embeddings/word_embeddings"; "generator_predictions/output_bias"]
        "gen" = inr mg
    ∧ (is_Some (Dict.get md "generator_predictions/output_bias")
       ∨ is_Some (Dict.get mg "generator_predictions/output_bias"))
    ∧ ¬ (is_Some (Dict.get md "generator_predictions/output_bias")
         ∧ is_Some (Dict.get mg "generator_predictions/output_bias")).
Proof.
  apply (disc_and_gen_partition_the_names
           ["electra/embeddings/word_embeddings"; "generator_predictions/output_bias"]
           "generator_predictions/output_bias").
  apply list_elem_of_In. simpl. right. left. reflexivity.
Defined.

(** ** No target name keeps a slash *)

Lemma replace_slash_no_slash s : Str.contains "/" (Str.replace "/" "." s) = false.
Proof.
  unfold Str.replace. induction s as [|c s IH]; [done|].
  cbn [Str.replace_scan Str.startswith String.length Nat.sub].
  destruct (Ascii.eqb_spec "/" c) as [<-|Hne].
  - change ("." +:+ Str.replace_scan "/" "." s 0)
      with (String "." (Str.replace_scan "/" "." s 0)).
    cbn [Str.contains Str.startswith]. simpl Ascii.eqb. exact IH.
  - cbn [Str.contains Str.startswith].
    destruct (Ascii.eqb_spec "/" c) as [?|_]; [done|]. exact IH.
Qed.

Lemma apply_rules_ends_with_slash_rule t :
  apply_rules CONVERT_MAP t
  = Str.replace "/" "." (apply_rules (removelast CONVERT_MAP) t).
Proof.
  change CONVERT_MAP with (removelast CONVERT_MAP ++ [("/", ".")])%list at 1.
  unfold apply_rules. by rewrite fold_left_app.
Qed.

(** X3. Since the last rule of [CONVERT_MAP] turns every slash into a
    dot, no target name of a name map contains a slash. *)
Theorem target_names_have_no_slash
    (tf_names : list string) (convert_type : string)
    (m : Dict.t (option string)) (source_name target_name : string) :
  get_name_map tf_names convert_type = inr m →
  Dict.get m source_name = Some (Some target_name) →
  Str.contains "/" target_name = false.
Proof.
  intros Hm Hget.
  destruct (decide (supported convert_type)) as [Hs|Hn].
  - destruct (name_map_domain CONVERT_MAP tf_names convert_type Hs) as (m' & Hm' & Hdom).
    unfold get_name_map in Hm. rewrite Hm in Hm'. injection Hm' as <-.
    destruct (Hdom source_name) as [_ Ht]. rewrite (Ht _ Hget).
    rewrite apply_rules_ends_with_slash_rule. apply replace_slash_no_slash.
  - destruct tf_names as [|x rest].
    + injection Hm as <-. done.
    + unfold get_name_map in Hm.
      by rewrite get_name_map_with_unsupported in Hm.
Qed.

Lemma target_names_have_no_slash_witness :
  Str.contains "/" "encoder.all_encoder_layers.0.ffn.ffn_2.weight" = false.
Proof.
  apply (target_names_have_no_slash
           ["electra/encoder/layer_0/output/dense/kernel"] "backbone"
           [("electra/encoder/layer_0/output/dense/kernel",
             Some "encoder.all_encoder_layers.0.ffn.ffn_2.weight")]
           "electra/encoder/layer_0/output/dense/kernel").
  - vm_compute. reflexivity.
  - vm_compute. reflexivity.
Defined.

(** ** The names read from the checkpoint *)

Lemma StronglySorted_list_filter {X} (R : relation X) (f : X → bool) (l : list X) :
  StronglySorted R l → StronglySorted R (List.filter f l).
Proof.
  induction 1 as [|x l Hl IH Hx]; simpl; [constructor|].
  destruct (f x); [|done]. constructor; [done|].
  apply Forall_forall. intros y Hy%list_elem_of_In%filter_In.
  destruct Hy as [Hy _]. rewrite Forall_forall in Hx. by apply Hx, list_elem_of_In.
Qed.

Lemma NoDup_list_filter {X} (f : X → bool) (l : list X) :
  NoDup l → NoDup (List.filter f l).
Proof.
  induction 1 as [|x l Hx Hl IH]; simpl; [constructor|].
  destruct (f x); [|done]. constructor; [|done].
  intros Hin%list_elem_of_In%filter_In. destruct Hin as [Hin _].
  by apply Hx, list_elem_of_In.
Qed.

Lemma elem_of_list_filter_bool {X} (f : X → bool) (l : list X) x :
  x ∈ List.filter f l ↔ x ∈ l ∧ f x = true.
Proof. by rewrite !list_elem_of_In, filter_In. Qed.

Lemma sorted_StronglySorted keys : StronglySorted String.le (sorted keys).
Proof. apply (StronglySorted_merge_sort String.le). Qed.

Lemma elem_of_sorted keys n : n ∈ sorted keys ↔ n ∈ keys.
Proof. unfold sorted. by rewrite merge_sort_Permutation. Qed.

Lemma checkpoint_names_NoDup keys : NoDup keys → NoDup (checkpoint_names keys).
Proof.
  intros Hnd. unfold checkpoint_names. do 4 apply NoDup_list_filter.
  unfold sorted. by rewrite merge_sort_Permutation.
Qed.

Lemma elem_of_checkpoint_names keys n :
  n ∈ checkpoint_names keys ↔
    n ∈ keys
    ∧ Str.endswith "adam_m" n = false
    ∧ Str.endswith "adam_v" n = false
    ∧ n ≠ "global_step"
    ∧ n ≠ "generator_predictions/temperature".
Proof.
  unfold checkpoint_names.
  rewrite !elem_of_list_filter_bool, elem_of_sorted, !negb_true_iff.
  rewrite !String.eqb_neq. tauto.
Qed.

Lemma checkpoint_names_StronglySorted keys :
  StronglySorted String.le (checkpoint_names keys).
Proof.
  unfold checkpoint_names.
  do 4 apply StronglySorted_list_filter. apply sorted_StronglySorted.
Qed.

(** X4. The names handed to the engine are in lexicographic order, and
    they are the keys of the checkpoint other than the optimizer slots
    (names that end with ["adam_m"] or ["adam_v"]), ["global_step"]
    and ["generator_predictions/temperature"]. *)
Theorem checkpoint_names_sorted_without_optimizer_state (keys : list string) :
  Sorted String.le (checkpoint_names keys)
  ∧ ∀ n, n ∈ checkpoint_names keys ↔
      n ∈ keys
      ∧ Str.endswith "adam_m" n = false
      ∧ Str.endswith "adam_v" n = false
      ∧ n ≠ "global_step"
      ∧ n ≠ "generator_predictions/temperature".
Proof.
  split.
  - apply StronglySorted_Sorted, checkpoint_names_StronglySorted.
  - apply elem_of_checkpoint_names.
Qed.

(** X5. On the names of a checkpoint the name map of a supported role
    has its keys in lexicographic order, and none of them is an
    optimizer slot, the step counter or the temperature. *)
Theorem name_map_of_checkpoint_is_sorted
    (keys : list string) (convert_type : string) :
  NoDup keys →
  supported convert_type →
  ∃ m, get_name_map (checkpoint_names keys) convert_type = inr m
    ∧ Sorted String.le (Dict.keys m)
    ∧ ∀ n, n ∈ Dict.keys m →
        n ∈ keys
        ∧ Str.endswith "adam_m" n = false
        ∧ Str.endswith "adam_v" n = false
        ∧ n ≠ "global_step"
        ∧ n ≠ "generator_predictions/temperature".
Proof.
  intros Hnd Hs.
  eexists. split.
  { apply (name_map_loop_ordered CONVERT_MAP convert_type (checkpoint_names keys) [] Hs).
    - by apply checkpoint_names_NoDup.
    - intros n _. apply not_elem_of_nil. }
  assert (Hk : Dict.keys (map (fun n => (n, entry CONVERT_MAP convert_type n))
                            (List.filter (passes convert_type) (checkpoint_names keys)))
               = List.filter (passes convert_type) (checkpoint_names keys)).
  { unfold Dict.keys. rewrite map_map. apply map_id. }
  cbn [app]. rewrite Hk. split.
  - apply StronglySorted_Sorted, StronglySorted_list_filter.
    apply checkpoint_names_StronglySorted.
  - intros n [Hn _]%elem_of_list_filter_bool.
    by apply elem_of_checkpoint_names.
Qed.

Lemma name_map_of_checkpoint_is_sorted_witness :
  ∃ m, get_name_map
         (checkpoint_names ["global_step"; "electra/embeddings/word_embeddings/adam_m";
                            "electra/embeddings/word_embeddings";
                            "discriminator_predictions/dense/bias"]) "disc" = inr m
    ∧ Sorted String.le (Dict.keys m)
    ∧ ∀ n, n ∈ Dict.keys m →
        n ∈ ["global_step"; "electra/embeddings/word_embeddings/adam_m";
             "electra/embeddings/word_embeddings";
             "discriminator_predictions/dense/bias"]
        ∧ Str.endswith "adam_m" n = false
        ∧ Str.endswith "adam_v" n = false
        ∧ n ≠ "global_step"
        ∧ n ≠ "generator_predictions/temperature".
Proof.
  apply (name_map_of_checkpoint_is_sorted
           ["global_step"; "electra/embeddings/word_embeddings/adam_m";
            "electra/embeddings/word_embeddings";
            "discriminator_predictions/dense/bias"] "disc").
  - apply (bool_decide_unpack _). vm_compute. exact I.
  - right. left. reflexivity.
Defined.

(** ** The vocabulary file *)

Lemma count_lines_from_body body rest pending after_cr :
  Posix.no_newline body = true →
  Posix.count_lines_from (body +:+ rest) pending after_cr
  = match body with
    | EmptyString => Posix.count_lines_from rest pending after_cr
    | String _ _ => Posix.count_lines_from rest true false
    end.
Proof.
  revert pending after_cr. induction body as [|c body IH]; intros pending after_cr; [done|].
  cbn [Posix.no_newline]. rewrite !andb_true_iff, !negb_true_iff.
  intros [[Hn Hr] Hb]. rewrite app_cons. cbn [Posix.count_lines_from].
  rewrite Hn, Hr, (IH _ _ Hb). by destruct body.
Qed.

Lemma count_lines_from_terminator (crlf : bool) rest pending :
  Posix.count_lines_from
    ((if crlf then String "013" (String "010" "") else String "010" "") +:+ rest)
    pending false
  = S (Posix.count_lines_from rest false false).
Proof. by destruct crlf. Qed.

(** X6. The number of lines that the converter takes as the size of
    the vocabulary is the number of lines written: one per line that
    ends with a line feed, alone or after a carriage return, and one
    more for a last line that is not empty and has no line end. *)
Theorem count_lines_counts_the_lines (lines : list (string * bool)) (last : string) :
  Forall (fun line => Posix.no_newline line.1 = true) lines →
  Posix.no_newline last = true →
  Posix.count_lines (Posix.text_of_lines lines +:+ last)
  = length lines + (if String.eqb last "" then 0 else 1).
Proof.
  intros Hl Hlast. unfold Posix.count_lines.
  induction Hl as [|[body crlf] lines Hb Hl IH]; cbn [Posix.text_of_lines length].
  - change ("" +:+ last) with last. rewrite <-(app_nil_r last) at 1.
    rewrite count_lines_from_body by done. by destruct last.
  - rewrite !app_assoc. rewrite count_lines_from_body by done.
    destruct body; rewrite count_lines_from_terminator, IH; done.
Qed.

Lemma count_lines_counts_the_lines_witness :
  Posix.count_lines
    (Posix.text_of_lines [("[PAD]", false); ("[UNK]", true); ("", false)] +:+ "the")
  = length [("[PAD]", false); ("[UNK]", true); ("", false)]
    + (if String.eqb "the" "" then 0 else 1).
Proof.
  apply (count_lines_counts_the_lines
           [("[PAD]", false); ("[UNK]", true); ("", false)] "the").
  - repeat constructor.
  - reflexivity.
Defined.

(** ** The assets and the configuration: failures *)

Section ConfigErrors.
Context {F : Type}.
Context (float_of_int : Z -> result F) (float_of_str : string -> result F).
Context (int_eq_float : Z -> F -> bool) (float_1E_12 : F).

Local Abbreviation convert_tf_config' :=
  (convert_tf_config float_of_int float_of_str int_eq_float float_1E_12).
Local Abbreviation convert_tf_assets' :=
  (convert_tf_assets float_of_int float_of_str int_eq_float float_1E_12).

Lemma find_vocab_closed_form file_names vocab_path :
  find_vocab file_names vocab_path
  = match vocab_path, List.filter (Str.endswith ".txt") file_names with
    | _, [] => inr vocab_path
    | None, [ele] => inr (Some ele)
    | _, _ => inl (AssertionError None)
    end.
Proof.
  revert vocab_path. induction file_names as [|x rest IH]; intros vocab_path;
    cbn [find_vocab List.filter].
  - by destruct vocab_path.
  - destruct (Str.endswith ".txt" x) eqn:E; [|apply IH].
    destruct vocab_path as [p|]; [done|]. rewrite IH.
    by destruct (List.filter (Str.endswith ".txt") rest).
Qed.

(** X7. [convert_tf_assets] needs exactly one name of the directory
    that ends with [".txt"]: with none, or with two or more, it fails
    with an assertion and reads no file; with one it reads that file
    of the directory, fails if it is not there, and otherwise hands
    its number of lines to [convert_tf_config] and returns the path
    with the configuration. *)
Theorem convert_tf_assets_needs_one_vocabulary_file
    (tf_assets_dir : string) (file_names : list string)
    (files : gmap string string) (config_dict : gmap string (@pyval F)) :
  convert_tf_assets' tf_assets_dir file_names files config_dict
  = match List.filter (Str.endswith ".txt") file_names with
    | [ele] =>
        match files !! Posix.join tf_assets_dir ele with
        | None => inl (FileNotFoundError (Posix.join tf_assets_dir ele))
        | Some text =>
            let! c := convert_tf_config' config_dict (Z.of_nat (Posix.count_lines text)) in
            ret (c, Posix.join tf_assets_dir ele)
        end
    | _ => inl (AssertionError None)
    end.
Proof.
  unfold convert_tf_assets. rewrite find_vocab_closed_form.
  destruct (List.filter (Str.endswith ".txt") file_names) as [|ele [|ele' txts]] eqn:E;
    cbn [bind]; [done| |done].
  assert (Hele : Str.endswith ".txt" ele = true).
  { assert (Hin : In ele (List.filter (Str.endswith ".txt") file_names))
      by (rewrite E; by left).
    by apply filter_In in Hin as [_ ?]. }
  destruct (String.eqb_spec ele "") as [->|_]; [done|]. cbn [negb].
  by destruct (files !! Posix.join tf_assets_dir ele).
Qed.

(** X8. When [convert_tf_config] returns a configuration, the two
    vocabulary sizes agree, every key that it reads is in the
    dictionary, and the configuration is frozen with the fields of
    the source under their new names: [units] is the source's
    [hidden_size] and [hidden_size] its [intermediate_size]. *)
Theorem convert_tf_config_success_needs_every_key
    (config_dict : gmap string (@pyval F)) (vocab_size : Z) (c : @cfg F) :
  convert_tf_config' config_dict vocab_size = inr c →
  (∃ expected, config_dict !! "vocab_size" = Some expected
     ∧ int_eq int_eq_float vocab_size expected = true)
  ∧ (∀ k, k ∈ config_keys → is_Some (config_dict !! k))
  ∧ frozen c = true
  ∧ MODEL_vocab_size c = vocab_size
  ∧ config_dict !! "hidden_size" = Some (MODEL_units c)
  ∧ config_dict !! "embedding_size" = Some (MODEL_embed_size c)
  ∧ config_dict !! "intermediate_size" = Some (MODEL_hidden_size c)
  ∧ config_dict !! "max_position_embeddings" = Some (MODEL_max_length c)
  ∧ config_dict !! "num_attention_heads" = Some (MODEL_num_heads c)
  ∧ config_dict !! "num_hidden_layers" = Some (MODEL_num_layers c)
  ∧ config_dict !! "generator_layers" = Some (MODEL_generator_layers_scale c)
  ∧ config_dict !! "generator_hidden_size" = Some (MODEL_generator_units_scale c).
Proof.
  unfold convert_tf_config. intros H. bind_inv H.
  destruct (int_eq int_eq_float vocab_size p) eqn:Heq; cbn [negb] in H; [|done].
  repeat bind_inv H. injection H as <-.
  repeat match goal with
         | E : getitem _ _ = inr _ |- _ => apply getitem_inv in E
         end.
  split; [by eexists|]. split.
  - intros k Hk. unfold config_keys in Hk.
    repeat (apply elem_of_cons in Hk as [->|Hk]); try by eexists.
    by apply elem_of_nil in Hk.
  - cbn. by repeat split.
Qed.
End ConfigErrors.

Lemma convert_tf_config_success_needs_every_key_witness :
  ∃ c, convert_tf_config q_of_int q_of_str int_eq_q q_1E_12 small_config 50 = inr c
    ∧ small_config !! "intermediate_size" = Some (MODEL_hidden_size c)
    ∧ small_config !! "hidden_size" = Some (MODEL_units c).
Proof.
  destruct (convert_tf_config q_of_int q_of_str int_eq_q q_1E_12 small_config 50)
    as [e|c] eqn:E; [vm_compute in E; discriminate E|].
  exists c. split; [reflexivity|].
  pose proof (convert_tf_config_success_needs_every_key
                q_of_int q_of_str int_eq_q q_1E_12 small_config 50 c E) as H.
  split; apply H.
Defined.

(** ** Shapes *)

Section ShapeFacts.
Context {A : Type}.
Implicit Types (a v : Np.ndarray A) (h : @heap A).

Lemma omap_rev {X Y} (f : X → option Y) (l : list X) :
  omap f (rev l) = rev (omap f l).
Proof.
  induction l as [|x l IH]; [done|]. simpl.
  rewrite omap_app, IH. simpl. destruct (f x); simpl; [done|].
  by rewrite List.app_nil_r.
Qed.

Lemma gather_all {X} (pre l : list X) :
  omap (fun k => (pre ++ l)%list !! k) (seq (length pre) (length l)) = l.
Proof.
  revert pre. induction l as [|x l IH]; intros pre; [done|]. simpl.
  rewrite list_lookup_middle by done. f_equal.
  specialize (IH (pre ++ [x])%list).
  rewrite <-List.app_assoc, length_app in IH. simpl in IH.
  by rewrite Nat.add_1_r in IH.
Qed.

(** [.T] reverses the shape. *)
Lemma shape_T a : Np.shape (Np.T a) = rev (Np.shape a).
Proof.
  unfold Np.T, Np.transpose, Np.ndim. simpl.
  rewrite omap_rev. f_equal. apply (gather_all [] (Np.shape a)).
Qed.

Lemma set_data_shape l v h h' :
  set_data l v h = inr h' →
  Np.shape (h l) = Np.shape v ∧ ∀ l', Np.shape (h' l') = Np.shape (h l').
Proof.
  intros [Hs ->]%set_data_inv. split; [done|]. intros l'.
  destruct (decide (l = l')) as [<-|Hne].
  - by rewrite heap_insert_eq.
  - by rewrite heap_insert_ne.
Qed.

Lemma copy_step_shape tf_params mx_params h keys src dst h' keys' :
  copy_step tf_params mx_params (h, keys) (src, Some dst) = inr (h', keys') →
  ∃ v l, tf_params !! src = Some v ∧ mx_params !! dst = Some l
    ∧ Np.shape (h l)
      = (if Str.endswith "kernel" src then rev (Np.shape v) else Np.shape v).
Proof.
  unfold copy_step. intros H. bind_inv H. bind_inv H.
  apply getitem_inv in E.
  destruct (Str.endswith "kernel" src);
    (bind_inv H; bind_inv H; apply getitem_inv in E1;
     apply set_data_shape in E2 as [Hs _];
     eexists _, _; split; [done|]; split; [done|]).
  - by rewrite Hs, shape_T.
  - done.
Qed.

Lemma copy_step_shapes tf_params mx_params h keys item h' keys' l :
  copy_step tf_params mx_params (h, keys) item = inr (h', keys') →
  Np.shape (h' l) = Np.shape (h l).
Proof.
  destruct item as [src dst]. unfold copy_step. intros H. bind_inv H.
  destruct dst as [dst|]; [|by injection H as <- _].
  bind_inv H.
  destruct (Str.endswith "kernel" src);
    (bind_inv H; bind_inv H; injection H as <- _;
     by apply set_data_shape in E2 as [_ ?]).
Qed.

Lemma copy_items_shapes tf_params mx_params items h keys h' keys' l :
  copy_items tf_params mx_params items (h, keys) = inr (h', keys') →
  Np.shape (h' l) = Np.shape (h l).
Proof.
  revert h keys. induction items as [|item items IH]; intros h keys;
    cbn [copy_items].
  - by intros [= <- _].
  - intros H. bind_inv H. destruct p as [h1 keys1].
    rewrite (IH _ _ H). by eapply copy_step_shapes.
Qed.

Lemma convert_qkv_weights_shapes tf_params mx_params tf_prefix mx_prefix h h' l :
  convert_qkv_weights tf_params mx_params tf_prefix mx_prefix h = inr h' →
  Np.shape (h' l) = Np.shape (h l).
Proof.
  unfold convert_qkv_weights. intros H. repeat bind_inv H.
  apply set_data_shape in H as [_ ->].
  match goal with
  | E : set_data _ _ _ = inr _ |- _ => by apply set_data_shape in E as [_ ->]
  end.
Qed.

Lemma merge_layers_shapes tf_params mx_params convert_type layers h h' l :
  merge_layers tf_params mx_params convert_type layers h = inr h' →
  Np.shape (h' l) = Np.shape (h l).
Proof.
  revert h. induction layers as [|i layers IH]; intros h; cbn [merge_layers].
  - by intros [= <-].
  - destruct (layer_prefixes convert_type i) as [tf_prefix mx_prefix].
    intros H. bind_inv H. rewrite (IH _ H).
    by eapply convert_qkv_weights_shapes.
Qed.
End ShapeFacts.

(** ** The copy loop: what is assigned *)

Lemma copy_items_app {A : Type} (tf_params : gmap string (Np.ndarray A))
    (mx_params : gmap string loc) (items1 items2 : Dict.t (option string))
    (st : @heap A * gset string) :
  copy_items tf_params mx_params (items1 ++ items2)%list st
  = bind (copy_items tf_params mx_params items1 st)
         (copy_items tf_params mx_params items2).
Proof.
  revert st. induction items1 as [|item items1 IH]; intros st; cbn [copy_items app].
  - done.
  - destruct (copy_step tf_params mx_params st item) as [e|st']; cbn [bind]; [done|].
    apply IH.
Qed.

(** C3. When the copy loop ends without an exception, every pair
    [(src_name, dst_name)] of the name map whose target is not the
    sentinel is assigned as follows. The loop reaches the pair in a
    state [h1], and the step of the pair stores a tensor [assigned]
    in the parameter of [dst_name] and changes nothing else. If
    [src_name] ends with ["kernel"] and the source tensor is a matrix,
    [assigned] is the source tensor with its two trailing axes
    exchanged; the source is a matrix as soon as the target parameter
    is one, since a parameter refuses a value of another shape. If
    [src_name] does not end with ["kernel"], [assigned] is the source
    tensor itself. *)
Theorem C3_kernels_are_transposed {A : Type}
    (tf_params : gmap string (Np.ndarray A)) (mx_params : gmap string loc)
    (name_map : Dict.t (option string)) (h h' : @heap A) (remaining : gset string)
    (src_name dst_name : string) :
  copy_loop tf_params mx_params name_map h = inr (h', remaining) →
  (src_name, Some dst_name) ∈ name_map →
  ∃ before after tf_param_val param assigned h1 keys1,
    name_map = (before ++ (src_name, Some dst_name) :: after)%list
    ∧ tf_params !! src_name = Some tf_param_val
    ∧ mx_params !! dst_name = Some param
    ∧ copy_items tf_params mx_params before (h, dom mx_params) = inr (h1, keys1)
    ∧ copy_step tf_params mx_params (h1, keys1) (src_name, Some dst_name)
      = inr (fn_insert param assigned h1, keys1 ∖ {[dst_name]})
    ∧ copy_items tf_params mx_params after
        (fn_insert param assigned h1, keys1 ∖ {[dst_name]})
      = inr (h', remaining)
    ∧ (Str.endswith "kernel" src_name = true →
       Np.ndim tf_param_val = 2 ∨ Np.ndim (h param) = 2 →
       Np.swap_trailing tf_param_val = inr assigned)
    ∧ (Str.endswith "kernel" src_name = false → assigned = tf_param_val).
Proof.
  intros Hrun (before & after & ->)%list_elem_of_split.
  unfold copy_loop in Hrun. rewrite copy_items_app in Hrun.
  destruct (copy_items tf_params mx_params before (h, dom mx_params))
    as [|[h1 keys1]] eqn:Ebefore; cbn [bind] in Hrun; [done|].
  cbn [copy_items] in Hrun.
  destruct (copy_step tf_params mx_params (h1, keys1) (src_name, Some dst_name))
    as [|[h2 keys2]] eqn:Estep; cbn [bind] in Hrun; [done|].
  pose proof (copy_step_shape _ _ _ _ _ _ _ _ Estep) as (v' & l' & Hv' & Hl' & Hshape).
  pose proof (copy_items_shapes _ _ _ _ _ _ _ l' Ebefore) as Hkeep.
  pose proof Estep as Hstep.
  apply copy_step_inv in Hstep as (v & Hv & _ & -> & l & Hl & ->).
  rewrite Hv in Hv'. injection Hv' as <-. rewrite Hl in Hl'. injection Hl' as <-.
  exists before, after, v, l,
    (if Str.endswith "kernel" src_name then Np.T v else v), h1, keys1.
  repeat (split; [done|]). split.
  - intros Hk Hor. rewrite Hk in Hshape |- *. symmetry. rewrite <-T_rank_2; [done|].
    destruct Hor as [Hv2|Hp2]; [done|].
    unfold Np.ndim in *. by rewrite <-Hkeep, Hshape, length_rev in Hp2.
  - by intros ->.
Qed.

(** The dense kernel of the discriminator head, a matrix of two rows
    and three columns, after the bias of the head. *)
Lemma C3_witness :
  ∃ before after tf_param_val param assigned h1 keys1,
    ex3_name_map
    = (before ++ ("discriminator_predictions/dense/kernel", Some "rtd_encoder.0.weight")
              :: after)%list
    ∧ ex3_tf_params !! "discriminator_predictions/dense/kernel" = Some tf_param_val
    ∧ ex3_mx_params !! "rtd_encoder.0.weight" = Some param
    ∧ copy_items ex3_tf_params ex3_mx_params before (ex3_heap, dom ex3_mx_params)
      = inr (h1, keys1)
    ∧ copy_step ex3_tf_params ex3_mx_params (h1, keys1)
        ("discriminator_predictions/dense/kernel", Some "rtd_encoder.0.weight")
      = inr (fn_insert param assigned h1, keys1 ∖ {[ "rtd_encoder.0.weight" ]})
    ∧ copy_items ex3_tf_params ex3_mx_params after
        (fn_insert param assigned h1, keys1 ∖ {[ "rtd_encoder.0.weight" ]})
      = inr (fn_insert 0 (Np.Ndarray [3; 2] [1; 4; 2; 5; 3; 6]%Z)
               (fn_insert 1 (Np.Ndarray [3] [7; 8; 9]%Z) ex3_heap), ∅)
    ∧ (Str.endswith "kernel" "discriminator_predictions/dense/kernel" = true →
       Np.ndim tf_param_val = 2 ∨ Np.ndim (ex3_heap param) = 2 →
       Np.swap_trailing tf_param_val = inr assigned)
    ∧ (Str.endswith "kernel" "discriminator_predictions/dense/kernel" = false →
       assigned = tf_param_val).
Proof.
  apply (C3_kernels_are_transposed ex3_tf_params ex3_mx_params ex3_name_map ex3_heap
           (fn_insert 0 (Np.Ndarray [3; 2] [1; 4; 2; 5; 3; 6]%Z)
              (fn_insert 1 (Np.Ndarray [3] [7; 8; 9]%Z) ex3_heap))
           ∅).
  - vm_compute. reflexivity.
  - apply list_elem_of_In. simpl. right. left. reflexivity.
Defined.

(** The kernel of [ex3_tf_params] is stored with its two axes
    exchanged and the bias as it is; a kernel of three axes is refused
    by a parameter of two axes. *)
Example copy_loop_kernel_ex :
  copy_loop ex3_tf_params ex3_mx_params ex3_name_map ex3_heap
  = inr (fn_insert 0 (Np.Ndarray [3; 2] [1; 4; 2; 5; 3; 6]%Z)
           (fn_insert 1 (Np.Ndarray [3] [7; 8; 9]%Z) ex3_heap), ∅)
  ∧ Np.swap_trailing (Np.Ndarray [2; 3] [1; 2; 3; 4; 5; 6]%Z)
    = inr (Np.Ndarray [3; 2] [1; 4; 2; 5; 3; 6]%Z)
  ∧ copy_loop
      {[ "electra/conv/kernel" := Np.Ndarray [2; 2; 2] [0; 1; 2; 3; 4; 5; 6; 7]%Z ]}
      {[ "conv.weight" := 0 ]} [("electra/conv/kernel", Some "conv.weight")] ex3_heap
    = inl (AssertionError None).
Proof. repeat split; vm_compute; reflexivity. Qed.

(** ** The copy loop: when it succeeds and how it fails *)

Section CopyLoopMore.
Context {A : Type}.
Implicit Types (h : @heap A) (tf_params : gmap string (Np.ndarray A)).
Implicit Types (mx_params : gmap string loc) (keys : gset string).
Implicit Types (items : Dict.t (option string)).

Lemma copy_items_sources tf_params mx_params items h keys h' keys' :
  copy_items tf_params mx_params items (h, keys) = inr (h', keys') →
  ∀ src dst, (src, dst) ∈ items → is_Some (tf_params !! src).
Proof.
  revert h keys. induction items as [|[src0 dst0] items IH]; intros h keys;
    cbn [copy_items].
  - intros _ src dst Hin. by apply elem_of_nil in Hin.
  - intros H. bind_inv H. destruct p as [h1 keys1].
    intros src dst [[= -> ->]|Hin]%elem_of_cons; [|by eapply IH].
    apply copy_step_inv in E as (v & Hv & _). by eexists.
Qed.

Lemma copy_items_targets_NoDup tf_params mx_params items h keys h' keys' :
  copy_items tf_params mx_params items (h, keys) = inr (h', keys') →
  NoDup (omap snd items).
Proof.
  revert h keys. induction items as [|[src0 dst0] items IH]; intros h keys;
    cbn [copy_items].
  - intros _. constructor.
  - intros H. bind_inv H. destruct p as [h1 keys1].
    pose proof (IH _ _ H) as Hnd.
    destruct dst0 as [d|]; [|done]. simpl. constructor; [|done].
    apply copy_step_inv in E as (v & _ & _ & -> & _).
    apply copy_items_touched_subseteq in H. unfold touched in H.
    intros Hd. assert (d ∈ keys ∖ {[d]}) by (apply H; by apply elem_of_list_to_set).
    set_solver.
Qed.

(** X9. When the copy loop ends without an exception, every source
    name of the name map, also one whose target is the sentinel, is in
    the checkpoint; no target name occurs twice, so no parameter name
    is written twice; every target name is a name of the model; and
    the names left in [all_keys] are those of the model that were not
    written. *)
Theorem copy_loop_success_conditions
    (tf_params : gmap string (Np.ndarray A)) (mx_params : gmap string loc)
    (name_map : Dict.t (option string)) (h h' : @heap A) (remaining : gset string) :
  copy_loop tf_params mx_params name_map h = inr (h', remaining) →
  (∀ src_name dst_name, (src_name, dst_name) ∈ name_map →
     is_Some (tf_params !! src_name))
  ∧ NoDup (omap snd name_map)
  ∧ touched name_map ⊆ dom mx_params
  ∧ remaining = dom mx_params ∖ touched name_map.
Proof.
  intros H. split; [by eapply copy_items_sources|].
  split; [by eapply copy_items_targets_NoDup|].
  split; [by eapply copy_items_touched_subseteq|].
  by eapply copy_items_remaining.
Qed.

Lemma copy_items_slot_shapes tf_params mx_params items h keys h' keys' :
  copy_items tf_params mx_params items (h, keys) = inr (h', keys') →
  ∀ src dst, (src, Some dst) ∈ items →
    ∃ v l, tf_params !! src = Some v ∧ mx_params !! dst = Some l
      ∧ Np.shape (h l)
        = (if Str.endswith "kernel" src then rev (Np.shape v) else Np.shape v).
Proof.
  revert h keys. induction items as [|[src0 dst0] items IH]; intros h keys;
    cbn [copy_items].
  - intros _ src dst Hin. by apply elem_of_nil in Hin.
  - intros H. bind_inv H. destruct p as [h1 keys1].
    intros src dst [[= -> <-]|Hin]%elem_of_cons.
    + by eapply copy_step_shape.
    + destruct (IH _ _ H src dst Hin) as (v & l & Hv & Hl & Hs).
      exists v, l. split; [done|]. split; [done|].
      rewrite <-Hs. symmetry. by eapply copy_step_shapes.
Qed.

(** X10. The copy loop never changes the shape of a parameter, and it
    ends without an exception only if every target parameter already
    had the shape of what it is given: the shape of the source tensor,
    reversed when the source name ends with ["kernel"]. *)
Theorem copy_loop_respects_the_shapes
    (tf_params : gmap string (Np.ndarray A)) (mx_params : gmap string loc)
    (name_map : Dict.t (option string)) (h h' : @heap A) (remaining : gset string) :
  copy_loop tf_params mx_params name_map h = inr (h', remaining) →
  (∀ param, Np.shape (h' param) = Np.shape (h param))
  ∧ ∀ src_name dst_name, (src_name, Some dst_name) ∈ name_map →
      ∃ tf_param_val param,
        tf_params !! src_name = Some tf_param_val
        ∧ mx_params !! dst_name = Some param
        ∧ Np.shape (h param)
          = (if Str.endswith "kernel" src_name
             then rev (Np.shape tf_param_val) else Np.shape tf_param_val).
Proof.
  intros H. split.
  - intros l. by eapply copy_items_shapes.
  - by eapply copy_items_slot_shapes.
Qed.

Lemma getitem_err {V} (d : gmap string V) k e :
  getitem d k = inl e → e = KeyError k ∧ d !! k = None.
Proof. unfold getitem. destruct (d !! k); [done|]. by intros [= <-]. Qed.

Lemma set_data_err l (v : Np.ndarray A) h e :
  set_data l v h = inl e → e = AssertionError None.
Proof. unfold set_data. case_bool_decide; [done|]. by intros [= <-]. Qed.

Lemma copy_step_errors tf_params mx_params h keys src dst e :
  copy_step tf_params mx_params (h, keys) (src, dst) = inl e →
  (e = KeyError src ∧ tf_params !! src = None)
  ∨ (∃ d, dst = Some d ∧ e = KeyError d ∧ (d ∉ keys ∨ mx_params !! d = None))
  ∨ (∃ d, dst = Some d ∧ e = AssertionError None).
Proof.
  unfold copy_step. intros H.
  destruct (getitem tf_params src) as [e0|v] eqn:Ev; cbn [bind] in H.
  { injection H as <-. left. by apply getitem_err. }
  destruct dst as [d|]; [|done]. right.
  destruct (set_remove keys d) as [e1|keys1] eqn:Er; cbn [bind] in H.
  { injection H as <-. left. exists d. unfold set_remove in Er.
    case_bool_decide; [done|]. injection Er as <-. auto. }
  destruct (Str.endswith "kernel" src);
    (destruct (getitem mx_params d) as [e2|l] eqn:El; cbn [bind] in H;
     [ injection H as <-; left; exists d; apply getitem_err in El as [-> ?]; auto
     | match type of H with
       | context [set_data l ?x h] =>
           destruct (set_data l x h) as [e3|h1] eqn:Es; cbn [bind] in H; [|done]
       end;
       injection H as <-; right; exists d; split; [done|];
       by apply set_data_err in Es ]).
Qed.

(** X11. The copy loop fails in two ways only. With [KeyError]: of a
    source name of the name map that is not in the checkpoint, or of
    a target name that is not, or is no longer, in [all_keys] or is
    not a name of the model. With the assertion of [set_data]: a
    target parameter whose shape is not the one assigned. *)
Theorem copy_loop_errors
    (tf_params : gmap string (Np.ndarray A)) (mx_params : gmap string loc)
    (name_map : Dict.t (option string)) (h : @heap A) (e : exn) :
  copy_loop tf_params mx_params name_map h = inl e →
  (∃ src_name dst_name, (src_name, dst_name) ∈ name_map
     ∧ e = KeyError src_name ∧ tf_params !! src_name = None)
  ∨ (∃ src_name dst_name, (src_name, Some dst_name) ∈ name_map
     ∧ (e = KeyError dst_name ∨ e = AssertionError None)).
Proof.
  unfold copy_loop. generalize (dom mx_params). revert h.
  induction name_map as [|[src dst] items IH]; intros h keys; cbn [copy_items];
    [done|].
  destruct (copy_step tf_params mx_params (h, keys) (src, dst))
    as [e1|[h1 keys1]] eqn:E; cbn [bind].
  - intros [= <-].
    apply copy_step_errors in E as [[-> Hs]|[(d & -> & -> & _)|(d & -> & ->)]].
    + left. exists src, dst. split; [left|done].
    + right. exists src, d. split; [left|by left].
    + right. exists src, d. split; [left|by right].
  - intros [(s & d & Hin & He)|(s & d & Hin & He)]%IH.
    + left. exists s, d. split; [by right|done].
    + right. exists s, d. split; [by right|done].
Qed.
End CopyLoopMore.

Lemma copy_loop_success_conditions_witness :
  (∀ src_name dst_name, (src_name, dst_name) ∈ ex3_name_map →
     is_Some (ex3_tf_params !! src_name))
  ∧ NoDup (omap snd ex3_name_map)
  ∧ touched ex3_name_map ⊆ dom ex3_mx_params
  ∧ (∅ : gset string) = dom ex3_mx_params ∖ touched ex3_name_map.
Proof.
  apply (copy_loop_success_conditions ex3_tf_params ex3_mx_params ex3_name_map ex3_heap
           (fn_insert 0 (Np.Ndarray [3; 2] [1; 4; 2; 5; 3; 6]%Z)
              (fn_insert 1 (Np.Ndarray [3] [7; 8; 9]%Z) ex3_heap))
           ∅).
  vm_compute. reflexivity.
Defined.

Lemma copy_loop_respects_the_shapes_witness :
  (∀ param,
     Np.shape (fn_insert 0 (Np.Ndarray [3; 2] [1; 4; 2; 5; 3; 6]%Z)
                 (fn_insert 1 (Np.Ndarray [3] [7; 8; 9]%Z) ex3_heap) param)
     = Np.shape (ex3_heap param))
  ∧ ∀ src_name dst_name, (src_name, Some dst_name) ∈ ex3_name_map →
      ∃ tf_param_val param,
        ex3_tf_params !! src_name = Some tf_param_val
        ∧ ex3_mx_params !! dst_name = Some param
        ∧ Np.shape (ex3_heap param)
          = (if Str.endswith "kernel" src_name
             then rev (Np.shape tf_param_val) else Np.shape tf_param_val).
Proof.
  apply (copy_loop_respects_the_shapes ex3_tf_params ex3_mx_params ex3_name_map ex3_heap
           (fn_insert 0 (Np.Ndarray [3; 2] [1; 4; 2; 5; 3; 6]%Z)
              (fn_insert 1 (Np.Ndarray [3] [7; 8; 9]%Z) ex3_heap))
           ∅).
  vm_compute. reflexivity.
Defined.

Lemma copy_loop_errors_witness :
  (∃ src_name dst_name,
     (src_name, dst_name)
       ∈ (ex3_name_map ++ [("electra/encoder/layer_0/attention/self/key/bias", None)])%list
     ∧ KeyError "electra/encoder/layer_0/attention/self/key/bias" = KeyError src_name
     ∧ ex3_tf_params !! src_name = None)
  ∨ (∃ src_name dst_name,
       (src_name, Some dst_name)
         ∈ (ex3_name_map ++ [("electra/encoder/layer_0/attention/self/key/bias", None)])%list
       ∧ (KeyError "electra/encoder/layer_0/attention/self/key/bias" = KeyError dst_name
          ∨ KeyError "electra/encoder/layer_0/attention/self/key/bias"
            = AssertionError None)).
Proof.
  apply (copy_loop_errors ex3_tf_params ex3_mx_params
           (ex3_name_map ++ [("electra/encoder/layer_0/attention/self/key/bias", None)])%list
           ex3_heap (KeyError "electra/encoder/layer_0/attention/self/key/bias")).
  vm_compute. reflexivity.
Defined.

(** ** The leftover check: the pattern *)

Lemma lang_lit_inv s w : Re.lang (Re.Lit s) w → w = s.
Proof.
  revert w. induction s as [|c s IH]; intros w; simpl.
  - by inversion 1.
  - inversion 1 as [| |r1 r2 s1 s2 H1 H2| | | |]; subst.
    inversion H1 as [|p c' Hp| | | | |]; subst.
    apply Ascii.eqb_eq in Hp as <-. by rewrite (IH _ H2).
Qed.

Lemma lang_star_digits_inv r w :
  Re.lang r w → r = Re.Star (Re.Class Re.digit) → Str.all_digits w = true.
Proof.
  induction 1 as [| | | | | |r' s1 s2 H1 _ H2 IH2]; intros Hr; try done.
  injection Hr as ->. inversion H1 as [|p c Hp| | | | |]; subst.
  rewrite app_cons. simpl. unfold Re.digit in Hp.
  destruct (Ascii.is_nat c); [|done]. by apply IH2.
Qed.

Lemma all_digits_lang ds :
  Str.all_digits ds = true → Re.lang (Re.Star (Re.Class Re.digit)) ds.
Proof.
  induction ds as [|c ds IH]; simpl; [constructor|].
  destruct (Ascii.is_nat c) eqn:Hc; [|done]. intros Hd.
  change (String c ds) with (String c "" +:+ ds).
  constructor; [|by apply IH]. constructor. unfold Re.digit. by rewrite Hc.
Qed.

Lemma lang_eps_inv w : Re.lang Re.Eps w → w = "".
Proof. by inversion 1. Qed.

Lemma lang_class_inv p w : Re.lang (Re.Class p) w → ∃ c, w = String c "" ∧ p c = true.
Proof. inversion 1; subst. by eexists. Qed.

Lemma lang_seq_inv r1 r2 w :
  Re.lang (Re.Seq r1 r2) w → ∃ s1 s2, w = s1 +:+ s2 ∧ Re.lang r1 s1 ∧ Re.lang r2 s2.
Proof. inversion 1; subst. by eexists _, _. Qed.

Lemma lang_alt_inv r1 r2 w : Re.lang (Re.Alt r1 r2) w → Re.lang r1 w ∨ Re.lang r2 w.
Proof. inversion 1; subst; auto. Qed.

(** X12. On names whose characters are code points below 256, where
    the decimal digits that [\d] matches are the ten ASCII digits, the
    pattern of the leftover check accepts exactly the names made of an
    optional ["backbone_model."], then ["encoder.all_encoder_layers."],
    one or more ASCII digits, [".attn_qkv."] and ["weight"] or
    ["bias"], and the same names followed by one line feed, which [$]
    lets through. A name with a decimal digit of another script, which
    [\d] also matches in Python, is not a [string] of this
    development. *)
Theorem qkv_pattern_accepts_exactly_the_fused_slot_names (key : string) :
  Re.match_anchored qkv_regex key = true ↔
  ∃ (with_prefix is_weight line_feed : bool) (digits : string),
    digits ≠ ""
    ∧ Str.all_digits digits = true
    ∧ key = (if with_prefix then "backbone_model." else "")
            +:+ "encoder.all_encoder_layers." +:+ digits +:+ ".attn_qkv."
            +:+ (if is_weight then "weight" else "bias")
            +:+ (if line_feed then String "010" "" else "").
Proof.
  unfold Re.match_anchored. rewrite fullmatch_lang. split.
  - intros (body & s2 & -> & Hbody & Hnl)%lang_seq_inv.
    unfold qkv_regex in Hbody.
    apply lang_seq_inv in Hbody as (p1 & s3 & -> & Hp & H3).
    apply lang_seq_inv in H3 as (p2 & s4 & -> & Hl & H4).
    apply lang_seq_inv in H4 as (p3 & s5 & -> & Hd & H5).
    apply lang_seq_inv in H5 as (p4 & s6 & -> & Hq & Hw).
    apply (lang_lit_inv "encoder.all_encoder_layers.") in Hl as ->.
    apply (lang_lit_inv ".attn_qkv.") in Hq as ->.
    apply lang_seq_inv in Hd as (d1 & d2 & -> & Hd1 & Hd2).
    apply lang_class_inv in Hd1 as (c & -> & Hc).
    pose proof (lang_star_digits_inv _ _ Hd2 eq_refl) as Hds.
    assert (Hall : Str.all_digits (String c "" +:+ d2) = true).
    { rewrite app_cons. simpl. unfold Re.digit in Hc.
      by destruct (Ascii.is_nat c). }
    assert (Hp1 : p1 = "" ∨ p1 = "backbone_model.").
    { apply lang_alt_inv in Hp as [Hp|Hp];
        [left; by apply lang_eps_inv | right; by apply (lang_lit_inv "backbone_model.")]. }
    assert (Hs6 : s6 = "weight" ∨ s6 = "bias").
    { apply lang_alt_inv in Hw as [Hw|Hw];
        [left; by apply (lang_lit_inv "weight") | right; by apply (lang_lit_inv "bias")]. }
    assert (Hs2 : s2 = "" ∨ s2 = String "010" "").
    { apply lang_alt_inv in Hnl as [Hnl|Hnl]; [left; by apply lang_eps_inv|right].
      apply lang_class_inv in Hnl as (c' & -> & Hc').
      by apply Ascii.eqb_eq in Hc' as <-. }
    exists (bool_decide (p1 = "backbone_model.")), (bool_decide (s6 = "weight")),
           (bool_decide (s2 = String "010" "")), (String c "" +:+ d2).
    split; [done|]. split; [done|].
    destruct Hp1 as [-> | ->], Hs6 as [-> | ->], Hs2 as [-> | ->];
      by rewrite !app_assoc.
  - intros (b & w & nl & ds & Hne & Hd & ->).
    replace ((if b then "backbone_model." else "")
             +:+ "encoder.all_encoder_layers." +:+ ds +:+ ".attn_qkv."
             +:+ (if w then "weight" else "bias")
             +:+ (if nl then String "010" "" else ""))
      with (((if b then "backbone_model." else "")
             +:+ "encoder.all_encoder_layers." +:+ ds +:+ ".attn_qkv."
             +:+ (if w then "weight" else "bias"))
            +:+ (if nl then String "010" "" else ""))
      by (by rewrite !app_assoc).
    apply Re.lang_seq.
    + unfold qkv_regex. apply Re.lang_seq.
      { destruct b; [apply Re.lang_alt_r, lang_lit | apply Re.lang_alt_l; constructor]. }
      apply Re.lang_seq; [apply lang_lit|].
      apply Re.lang_seq.
      { destruct ds as [|c ds]; [done|]. simpl in Hd.
        destruct (Ascii.is_nat c) eqn:Hc; [|done].
        change (String c ds) with (String c "" +:+ ds).
        apply Re.lang_seq; [|by apply all_digits_lang].
        constructor. unfold Re.digit. by rewrite Hc. }
      apply Re.lang_seq; [apply lang_lit|].
      destruct w; [apply Re.lang_alt_l | apply Re.lang_alt_r]; apply lang_lit.
    + destruct nl; [apply Re.lang_alt_r; by constructor | apply Re.lang_alt_l; constructor].
Qed.

(** ** The leftover check: what it reports, excuses and lets through *)

Lemma check_keys_error convert_type keys e :
  check_keys convert_type keys = inl e →
  ∃ key, key ∈ keys
    ∧ (key ∉ exempt convert_type)
    ∧ Re.match_anchored qkv_regex key = false
    ∧ e = AssertionError (Some ("Parameter key " +:+ key +:+ " mismatch")).
Proof.
  induction keys as [|k keys IH]; cbn [check_keys]; [done|].
  rewrite check_key_spec.
  destruct (bool_decide (k ∈ exempt convert_type) || Re.match_anchored qkv_regex k) eqn:E;
    cbn [bind].
  - intros (key & Hin & H)%IH. exists key. split; [by right|done].
  - intros [= <-]. apply orb_false_iff in E as [E1 E2].
    rewrite bool_decide_eq_false in E1. exists k. split; [by left|done].
Qed.

(** X13. When the leftover check fails, its message names a parameter
    that is left, is not excused and does not match the pattern. *)
Theorem leftover_check_names_a_bad_parameter
    (convert_type : string) (all_keys : gset string) (e : exn) :
  check_leftover convert_type all_keys = inl e →
  ∃ key, key ∈ all_keys
    ∧ (key ∉ exempt convert_type)
    ∧ Re.match_anchored qkv_regex key = false
    ∧ e = AssertionError (Some ("Parameter key " +:+ key +:+ " mismatch")).
Proof.
  unfold check_leftover. intros (key & Hin & H)%check_keys_error.
  exists key. split; [by apply elem_of_elements|done].
Qed.

Lemma leftover_check_names_a_bad_parameter_witness :
  ∃ key, key ∈ ({[ "pooler.weight" ]} : gset string)
    ∧ (key ∉ exempt "disc")
    ∧ Re.match_anchored qkv_regex key = false
    ∧ AssertionError (Some "Parameter key pooler.weight mismatch")
      = AssertionError (Some ("Parameter key " +:+ key +:+ " mismatch")).
Proof.
  apply (leftover_check_names_a_bad_parameter "disc" {[ "pooler.weight" ]}
           (AssertionError (Some "Parameter key pooler.weight mismatch"))).
  vm_compute. reflexivity.
Defined.

Lemma disc_embed_params_do_not_match key :
  key ∈ disc_embed_params → Re.match_anchored qkv_regex key = false.
Proof.
  unfold disc_embed_params. rewrite elem_of_list_to_set, !elem_of_cons, elem_of_nil.
  intros [->|[->|[->|[->|[->|[->|[]]]]]]]; vm_compute; reflexivity.
Qed.

(** X14. The shared names of [disc_embed_params] are excused for the
    generator only: a set of leftover names made of them passes the
    check of the generator, and one of them left over in any other
    role makes the check fail. *)
Theorem tied_names_are_excused_for_the_generator_only
    (all_keys : gset string) (key : string) :
  key ∈ disc_embed_params →
  key ∈ all_keys →
  (∀ convert_type, convert_type ≠ "gen" →
     ∃ msg, check_leftover convert_type all_keys = inl (AssertionError msg))
  ∧ (all_keys ⊆ disc_embed_params → check_leftover "gen" all_keys = inr tt).
Proof.
  intros Hk Hin. split.
  - intros convert_type Hne. unfold check_leftover. apply check_keys_raises.
    exists key. split; [by apply elem_of_elements|]. split.
    + rewrite elem_of_exempt. intros [? _]. done.
    + by apply disc_embed_params_do_not_match.
  - intros Hsub. unfold check_leftover. apply check_keys_ok.
    intros k Hk'%elem_of_elements. left. apply elem_of_exempt. split; [done|].
    by apply Hsub.
Qed.

Lemma tied_names_are_excused_for_the_generator_only_witness :
  (∀ convert_type, convert_type ≠ "gen" →
     ∃ msg, check_leftover convert_type {[ "mlm_decoder.3.weight" ]}
            = inl (AssertionError msg))
  ∧ (({[ "mlm_decoder.3.weight" ]} : gset string) ⊆ disc_embed_params →
     check_leftover "gen" {[ "mlm_decoder.3.weight" ]} = inr tt).
Proof.
  apply (tied_names_are_excused_for_the_generator_only
           {[ "mlm_decoder.3.weight" ]} "mlm_decoder.3.weight").
  - vm_compute. reflexivity.
  - vm_compute. reflexivity.
Defined.

Lemma prefixed_slot_is_not_a_backbone_slot i j d :
  d ∈ layer_slots "disc" i → d ∉ layer_slots "backbone" j.
Proof.
  unfold layer_slots. rewrite !elem_of_cons, !elem_of_nil.
  intros [-> | [-> | []]] [H | [H | []]]; rewrite !slot_name in H; discriminate H.
Qed.

(** X15. What the check lets through and the merger does not fill.
    The two fused slot names of a layer at or beyond [num_layers] pass
    the leftover check of their role, and are not among the names
    that the merger writes for [num_layers] layers. And a slot name
    with the prefix ["backbone_model."] passes the check of the
    backbone role, whose merger writes no such name. *)
Theorem leftover_check_lets_unfilled_slots_through
    (convert_type : string) (num_layers layer_id : nat) (key : string) :
  (num_layers ≤ layer_id)%nat →
  (key ∈ layer_slots convert_type layer_id →
   check_key convert_type key = inr tt
   ∧ key ∉ merger_filled convert_type num_layers)
  ∧ (key ∈ layer_slots "disc" layer_id →
     check_key "backbone" key = inr tt
     ∧ ∀ n, key ∉ merger_filled "backbone" n).
Proof.
  intros Hle. split.
  - intros Hk. split.
    + rewrite check_key_spec.
      rewrite (merger_filled_matches convert_type (S layer_id) key).
      * by rewrite orb_true_r.
      * apply elem_of_merger_filled. exists layer_id. split; [lia|].
        unfold layer_slots in Hk. rewrite !elem_of_cons, elem_of_nil in Hk. tauto.
    + intros (j & Hj & Hkj)%elem_of_merger_filled.
      assert (Hkj' : key ∈ layer_slots convert_type j).
      { unfold layer_slots. rewrite !elem_of_cons. tauto. }
      pose proof (layer_slots_disjoint _ _ _ _ Hk Hkj'). lia.
  - intros Hk. split.
    + rewrite check_key_spec.
      rewrite (merger_filled_matches "disc" (S layer_id) key).
      * by rewrite orb_true_r.
      * apply elem_of_merger_filled. exists layer_id. split; [lia|].
        unfold layer_slots in Hk. rewrite !elem_of_cons, elem_of_nil in Hk. tauto.
    + intros n (j & Hj & Hkj)%elem_of_merger_filled.
      apply (prefixed_slot_is_not_a_backbone_slot layer_id j key Hk).
      unfold layer_slots. rewrite !elem_of_cons. tauto.
Qed.

Lemma leftover_check_lets_unfilled_slots_through_witness :
  ("encoder.all_encoder_layers.12.attn_qkv.weight" ∈ layer_slots "backbone" 12 →
   check_key "backbone" "encoder.all_encoder_layers.12.attn_qkv.weight" = inr tt
   ∧ "encoder.all_encoder_layers.12.attn_qkv.weight" ∉ merger_filled "backbone" 12)
  ∧ ("encoder.all_encoder_layers.12.attn_qkv.weight" ∈ layer_slots "disc" 12 →
     check_key "backbone" "encoder.all_encoder_layers.12.attn_qkv.weight" = inr tt
     ∧ ∀ n, "encoder.all_encoder_layers.12.attn_qkv.weight" ∉ merger_filled "backbone" n).
Proof.
  apply (leftover_check_lets_unfilled_slots_through "backbone" 12 12
           "encoder.all_encoder_layers.12.attn_qkv.weight").
  lia.
Defined.

(** ** The merger: how it fails *)

Ltac bind_err H :=
  match type of H with
  | bind ?m _ = inl _ =>
      let E := fresh "E" in
      destruct m eqn:E; cbn [bind] in H; [injection H as <-|]
  end.

Section MergeErrors.
Context {A : Type}.
Implicit Types (h : @heap A) (tf_params : gmap string (Np.ndarray A)).
Implicit Types (mx_params : gmap string loc).

Lemma concatenate_err (arrays : list (Np.ndarray A)) axis e :
  Np.concatenate arrays axis = inl e → e = ValueError.
Proof.
  unfold Np.concatenate. destruct arrays as [|a0 rest]; [by intros [= <-]|].
  repeat match goal with
         | |- context [if ?b then _ else _] => destruct b
         end; by intros [= <-].
Qed.

Lemma convert_qkv_weights_err tf_params mx_params tf_prefix mx_prefix h e :
  convert_qkv_weights tf_params mx_params tf_prefix mx_prefix h = inl e →
  merge_failure tf_params mx_params
    [ tf_prefix +:+ "/query/kernel"; tf_prefix +:+ "/key/kernel";
      tf_prefix +:+ "/value/kernel"; tf_prefix +:+ "/query/bias";
      tf_prefix +:+ "/key/bias"; tf_prefix +:+ "/value/bias" ]
    [ mx_prefix +:+ ".attn_qkv.weight"; mx_prefix +:+ ".attn_qkv.bias" ] e.
Proof.
  unfold convert_qkv_weights, merge_failure. intros H.
  repeat (bind_err H;
    [ match goal with
      | E : getitem tf_params ?k = inl _ |- _ =>
          apply getitem_err in E as [-> ?]; left; exists k;
          split; [rewrite !elem_of_cons; tauto|done]
      | E : getitem mx_params ?k = inl _ |- _ =>
          apply getitem_err in E as [-> ?]; right; left; exists k;
          split; [rewrite !elem_of_cons; tauto|done]
      | E : Np.concatenate _ _ = inl _ |- _ =>
          apply concatenate_err in E as ->; right; right; by left
      | E : set_data _ _ _ = inl _ |- _ =>
          apply set_data_err in E as ->; right; right; by right
      end | ]).
  apply set_data_err in H as ->. right; right; by right.
Qed.

Lemma merge_layers_err tf_params mx_params convert_type layers h e :
  merge_layers tf_params mx_params convert_type layers h = inl e →
  ∃ layer_id, layer_id ∈ layers
    ∧ merge_failure tf_params mx_params
        (layer_sources convert_type layer_id) (layer_slots convert_type layer_id) e.
Proof.
  revert h. induction layers as [|i layers IH]; intros h; cbn [merge_layers]; [done|].
  destruct (layer_prefixes convert_type i) as [tf_prefix mx_prefix] eqn:Ep.
  intros H. bind_err H.
  - exists i. split; [by left|]. unfold layer_sources, layer_slots. rewrite Ep.
    by apply convert_qkv_weights_err in E.
  - apply IH in H as (j & Hj & H). exists j. split; [by right|done].
Qed.

(** X16. The merger fails in four ways only: with [KeyError] of one
    of the six names that it reads for a layer below [num_layers] and
    that is not in the checkpoint; with [KeyError] of a fused slot
    name of such a layer that is not a name of the model; with the
    [ValueError] of [np.concatenate]; with the assertion of
    [set_data]. *)
Theorem merge_qkv_errors
    (tf_params : gmap string (Np.ndarray A)) (mx_params : gmap string loc)
    (convert_type : string) (num_layers : nat) (h : @heap A) (e : exn) :
  merge_qkv tf_params mx_params convert_type num_layers h = inl e →
  ∃ layer_id, layer_id < num_layers
    ∧ ((∃ k, k ∈ layer_sources convert_type layer_id
          ∧ tf_params !! k = None ∧ e = KeyError k)
       ∨ (∃ k, k ∈ layer_slots convert_type layer_id
            ∧ mx_params !! k = None ∧ e = KeyError k)
       ∨ e = ValueError
       ∨ e = AssertionError None).
Proof.
  intros (i & Hi & H)%merge_layers_err. exists i. split; [|done].
  apply list_elem_of_In, in_seq in Hi. lia.
Qed.
End MergeErrors.

Lemma merge_qkv_errors_witness :
  ∃ layer_id, layer_id < 1
    ∧ ((∃ k, k ∈ layer_sources "disc" layer_id
          ∧ delete "electra/encoder/layer_0/attention/self/key/kernel" ex2_tf_params !! k
            = None
          ∧ KeyError "electra/encoder/layer_0/attention/self/key/kernel" = KeyError k)
       ∨ (∃ k, k ∈ layer_slots "disc" layer_id
            ∧ ex2_mx_params !! k = None
            ∧ KeyError "electra/encoder/layer_0/attention/self/key/kernel" = KeyError k)
       ∨ KeyError "electra/encoder/layer_0/attention/self/key/kernel" = ValueError
       ∨ KeyError "electra/encoder/layer_0/attention/self/key/kernel"
         = AssertionError None).
Proof.
  apply (merge_qkv_errors
           (delete "electra/encoder/layer_0/attention/self/key/kernel" ex2_tf_params)
           ex2_mx_params "disc" 1 ex2_heap
           (KeyError "electra/encoder/layer_0/attention/self/key/kernel")).
  vm_compute. reflexivity.
Defined.

(** ** One round of the loop over the roles *)

Section RoleFacts.
Context {A : Type}.
Implicit Types (h : @heap A) (tf_params : gmap string (Np.ndarray A)).
Implicit Types (mx_params : gmap string loc).

Lemma merge_qkv_frame tf_params mx_params convert_type num_layers h h' l :
  merge_qkv tf_params mx_params convert_type num_layers h = inr h' →
  (∀ d, d ∈ merger_filled convert_type num_layers → mx_params !! d ≠ Some l) →
  h' l = h l.
Proof.
  intros H Hl. apply (merge_layers_frame _ _ _ _ _ _ _ H).
  intros d Hd. apply Hl. unfold merger_filled. by apply elem_of_list_to_set.
Qed.

Lemma convert_role_inv
    (tf_names : list string) (tf_params : gmap string (Np.ndarray A))
    (mx_params : gmap string loc) (num_layers : nat) (convert_type : string)
    (h h' : @heap A) :
  convert_role tf_names tf_params mx_params num_layers convert_type h = inr h' →
  ∃ name_map, get_name_map tf_names convert_type = inr name_map
    ∧ (∀ param, Np.shape (h' param) = Np.shape (h param))
    ∧ (∀ param,
         (∀ d, d ∈ touched name_map ∪ merger_filled convert_type num_layers →
               mx_params !! d ≠ Some param) →
         h' param = h param)
    ∧ (∀ d, d ∈ dom mx_params →
         d ∈ touched name_map ∨ d ∈ exempt convert_type
         ∨ Re.match_anchored qkv_regex d = true).
Proof.
  unfold convert_role. intros H. bind_inv H. rename t into name_map.
  bind_inv H. destruct p as [h1 remaining]. bind_inv H. cbn [fst snd] in *.
  exists name_map. split; [done|]. split; [|split].
  - intros l. rewrite (merge_layers_shapes _ _ _ _ _ _ l H).
    by eapply copy_items_shapes.
  - intros l Hl.
    rewrite (merge_qkv_frame _ _ _ _ _ _ l H) by (intros d Hd; apply Hl; set_solver).
    apply (copy_items_frame _ _ _ _ _ _ _ l E0). intros d Hd. apply Hl. set_solver.
  - intros d Hd. apply copy_loop_remaining in E0 as ->.
    destruct u. unfold check_leftover in E1. rewrite check_keys_ok in E1.
    destruct (decide (d ∈ touched name_map)) as [?|Hn]; [by left|]. right.
    apply E1, elem_of_elements. set_solver.
Qed.

(** X17. When a round of a role ends without an exception: no
    parameter has changed its shape; a parameter that belongs to no
    target name of the name map and to no fused slot has kept its
    value; and every name of the model is a target of the name map,
    or, for the generator, one of the shared names, or a name with
    the pattern of the fused slots. *)
Theorem convert_role_success
    (tf_names : list string) (tf_params : gmap string (Np.ndarray A))
    (mx_params : gmap string loc) (num_layers : nat) (convert_type : string)
    (h h' : @heap A) :
  convert_role tf_names tf_params mx_params num_layers convert_type h = inr h' →
  ∃ name_map, get_name_map tf_names convert_type = inr name_map
    ∧ (∀ param, Np.shape (h' param) = Np.shape (h param))
    ∧ (∀ param,
         (∀ d, d ∈ touched name_map ∪ merger_filled convert_type num_layers →
               mx_params !! d ≠ Some param) →
         h' param = h param)
    ∧ (∀ d, d ∈ dom mx_params →
         d ∈ touched name_map ∨ d ∈ exempt convert_type
         ∨ Re.match_anchored qkv_regex d = true).
Proof. apply convert_role_inv. Qed.

End RoleFacts.

(** ** numpy: transposition and concatenation on one and two axes *)

Section NpFacts.
Context {A : Type}.
Implicit Types (d : list A).

Lemma omap_ext_in {X Y} (f g : X → option Y) (l : list X) :
  (∀ x, x ∈ l → f x = g x) → omap f l = omap g l.
Proof.
  induction l as [|x l IH]; intros H; [done|]. csimpl.
  rewrite (H x) by left. rewrite IH; [done|]. intros y Hy. apply H. by right.
Qed.

Lemma omap_seq_lookup {Y} (f : nat → option Y) (N : nat) :
  (∀ i, i < N → is_Some (f i)) →
  length (omap f (seq 0 N)) = N ∧ ∀ i, i < N → omap f (seq 0 N) !! i = f i.
Proof.
  induction N as [|N IH]; intros H; [split; [done|lia]|].
  destruct IH as [Hlen Hlk]; [intros i Hi; apply H; lia|].
  rewrite seq_S, omap_app. csimpl.
  destruct (H N) as [y Hy]; [lia|]. rewrite Hy. csimpl.
  split; [rewrite length_app, Hlen; simpl; lia|].
  intros i Hi. destruct (decide (i = N)) as [->|Hne].
  - rewrite lookup_app_r by lia. rewrite Hlen, Nat.sub_diag. by rewrite Hy.
  - rewrite lookup_app_l by lia. apply Hlk. lia.
Qed.

(** [.T] on two axes, in terms of the offsets. *)
Lemma T_rank2 r c d :
  Np.T (Np.Ndarray [r; c] d)
  = Np.Ndarray [c; r] (omap (fun i => d !! ((i mod r) * c + i / r)) (seq 0 (c * r))).
Proof.
  unfold Np.T, Np.transpose, Np.ndim.
  cbn [Np.shape Np.data length seq rev app omap lookup list_lookup from_option].
  assert (Hs : list_omap nat nat (fun k => [r; c] !! k) [1; 0] = [c; r]) by reflexivity.
  rewrite Hs. f_equal.
  replace (Np.prod [c; r]) with (c * r) by (unfold Np.prod; cbn [foldr]; lia).
  apply omap_ext_in. intros i _. f_equal.
  cbn [map Np.index_of Nat.eqb nth Np.unravel Np.ravel].
  unfold Np.prod. cbn [foldr].
  by rewrite !Nat.mul_1_r, Nat.div_1_r, Nat.add_0_r.
Qed.

Lemma T_rank2_data r c d :
  length d = r * c →
  length (Np.data (Np.T (Np.Ndarray [r; c] d))) = c * r
  ∧ ∀ i, i < c * r →
      Np.data (Np.T (Np.Ndarray [r; c] d)) !! i = d !! ((i mod r) * c + i / r).
Proof.
  intros Hlen. rewrite T_rank2. cbn [Np.data].
  apply omap_seq_lookup. intros i Hi. apply lookup_lt_is_Some. rewrite Hlen.
  assert (r ≠ 0) by (intros ->; lia).
  pose proof (Nat.mod_upper_bound i r). 
  assert (i / r < c) by (apply Nat.Div0.div_lt_upper_bound; lia).
  nia.
Qed.

Lemma T_T_rank2 (r c : nat) (d : list A) :
  length d = r * c →
  Np.T (Np.T (Np.Ndarray [r; c] d)) = Np.Ndarray [r; c] d.
Proof.
  intros Hlen.
  destruct (T_rank2_data r c d Hlen) as [Hl1 Hk1].
  rewrite (T_rank2 r c d) in *. cbn [Np.data] in *.
  set (dT := omap (fun i => d !! ((i mod r) * c + i / r)) (seq 0 (c * r))) in *.
  destruct (T_rank2_data c r dT Hl1) as [Hl2 Hk2].
  rewrite (T_rank2 c r dT) in *. cbn [Np.data] in *.
  f_equal. apply list_eq. intros i.
  destruct (decide (i < r * c)) as [Hi|Hi].
  - rewrite Hk2 by done.
    assert (c ≠ 0) by (intros ->; lia).
    assert (r ≠ 0) by (intros ->; lia).
    pose proof (Nat.mod_upper_bound i c).
    assert (Hq : i / c < r) by (apply Nat.Div0.div_lt_upper_bound; lia).
    rewrite Hk1 by nia. f_equal.
    rewrite (Nat.add_comm (i mod c * r)).
    rewrite Nat.Div0.mod_add, Nat.div_add by done.
    rewrite (Nat.mod_small (i / c) r), (Nat.div_small (i / c) r) by done.
    rewrite (Nat.div_mod_eq i c) at 3. lia.
  - rewrite !lookup_ge_None_2; [done|lia..].
Qed.

(** [np.concatenate] of three vectors. *)
Lemma concatenate_rank1 a b c (da db dc : list A) :
  length da = a → length db = b → length dc = c →
  Np.concatenate [Np.Ndarray [a] da; Np.Ndarray [b] db; Np.Ndarray [c] dc] 0
  = inr (Np.Ndarray [a + b + c] (da ++ db ++ dc)%list).
Proof.
  intros Ha Hb Hc. unfold Np.concatenate, Np.same_except, Np.ndim.
  cbn [Np.shape Np.data length forallb Nat.eqb Nat.ltb Nat.leb negb andb
       insert list_insert take drop nth map sum_list sum_list_with seq flat_map].
  rewrite !bool_decide_eq_true_2 by done. cbn [andb negb].
  unfold ret. f_equal. f_equal.
  - unfold id. f_equal. lia.
  - unfold Np.prod. cbn [foldr flat_map seq].
    rewrite !Nat.mul_1_r, !Nat.mul_0_l, !List.app_nil_r. cbn [drop].
    by rewrite <-Ha, <-Hb, <-Hc, !firstn_all.
Qed.

(** [np.concatenate] of three matrices side by side. *)
Lemma concatenate_rank2_axis1 n a b c (dq dk dv : list A) :
  Np.concatenate [Np.Ndarray [n; a] dq; Np.Ndarray [n; b] dk; Np.Ndarray [n; c] dv] 1
  = inr (Np.Ndarray [n; a + b + c]
           (flat_map (fun o => take a (drop (o * a) dq) ++ take b (drop (o * b) dk)
                               ++ take c (drop (o * c) dv))%list
                     (seq 0 n))).
Proof.
  unfold Np.concatenate, Np.same_except, Np.ndim.
  cbn [Np.shape Np.data length forallb Nat.eqb Nat.ltb Nat.leb negb andb
       insert list_insert take drop nth map sum_list sum_list_with].
  rewrite !bool_decide_eq_true_2 by done. cbn [andb negb].
  unfold ret, id. f_equal. f_equal.
  - do 2 f_equal. lia.
  - unfold Np.prod. cbn [foldr]. rewrite Nat.mul_1_r.
    apply flat_map_ext. intros o. cbn [flat_map Np.shape Np.data nth].
    by rewrite !Nat.mul_1_r, !List.app_nil_r.
Qed.

(** [np.concatenate] of three matrices one above the other. *)
Lemma concatenate_rank2_axis0 n a b c (dx dy dz : list A) :
  length dx = a * n → length dy = b * n → length dz = c * n →
  Np.concatenate [Np.Ndarray [a; n] dx; Np.Ndarray [b; n] dy; Np.Ndarray [c; n] dz] 0
  = inr (Np.Ndarray [a + b + c; n] (dx ++ dy ++ dz)%list).
Proof.
  intros Ha Hb Hc. unfold Np.concatenate, Np.same_except, Np.ndim.
  cbn [Np.shape Np.data length forallb Nat.eqb Nat.ltb Nat.leb negb andb
       insert list_insert take drop nth map sum_list sum_list_with].
  rewrite !bool_decide_eq_true_2 by done. cbn [andb negb].
  unfold ret, id. f_equal. f_equal.
  - f_equal. lia.
  - unfold Np.prod. cbn [foldr flat_map seq].
    rewrite !Nat.mul_1_r, !Nat.mul_0_l, !List.app_nil_r.
    cbn [drop Np.shape Np.data nth].
    by rewrite <-Ha, <-Hb, <-Hc, !firstn_all.
Qed.

Lemma length_flat_map_uniform {X} (f : nat → list X) (m : nat) (l : list nat) :
  (∀ x, x ∈ l → length (f x) = m) → length (flat_map f l) = length l * m.
Proof.
  induction l as [|x l IH]; intros H; [done|]. cbn [flat_map length].
  rewrite length_app, (H x) by left. rewrite IH; [lia|].
  intros y Hy. apply H. by right.
Qed.

Lemma lookup_flat_map_uniform {X} (f : nat → list X) (m : nat) (l : list nat) o j :
  (∀ x, x ∈ l → length (f x) = m) → j < m →
  flat_map f l !! (o * m + j) = l !! o ≫= fun x => f x !! j.
Proof.
  revert o. induction l as [|x l IH]; intros o H Hj; [done|]. cbn [flat_map].
  destruct o as [|o].
  - rewrite lookup_app_l by (rewrite (H x) by left; lia). done.
  - rewrite lookup_app_r by (rewrite (H x) by left; lia).
    rewrite (H x) by left.
    replace (S o * m + j - m) with (o * m + j) by lia.
    apply IH; [|done]. intros y Hy. apply H. by right.
Qed.

Lemma length_row (w n o : nat) (d : list A) :
  length d = n * w → o < n → length (take w (drop (o * w) d)) = w.
Proof. intros Hd Ho. rewrite length_take, length_drop, Hd. nia. Qed.

Lemma lookup_row (w o j : nat) (d : list A) :
  j < w → take w (drop (o * w) d) !! j = d !! (o * w + j).
Proof. intros Hj. rewrite lookup_take_lt by done. by rewrite lookup_drop. Qed.

Lemma div_mod_block n q o : o < n → (n * q + o) / n = q ∧ (n * q + o) mod n = o.
Proof.
  intros Ho. split; symmetry.
  - by apply (Nat.div_unique _ _ q o).
  - by apply (Nat.mod_unique _ _ q o).
Qed.

(** Concatenating three matrices of [n] rows side by side and
    transposing the result is putting their transposes one above the
    other. *)
Lemma transposed_concatenation (n a b c : nat) (dq dk dv : list A) :
  length dq = n * a → length dk = n * b → length dv = n * c →
  ∃ fused,
    Np.concatenate
      [Np.Ndarray [n; a] dq; Np.Ndarray [n; b] dk; Np.Ndarray [n; c] dv] 1
    = inr fused
    ∧ Np.concatenate
        [Np.T (Np.Ndarray [n; a] dq); Np.T (Np.Ndarray [n; b] dk);
         Np.T (Np.Ndarray [n; c] dv)] 0
      = inr (Np.T fused)
    ∧ Np.shape (Np.T fused) = [a + b + c; n].
Proof.
  intros Hq Hk Hv. rewrite concatenate_rank2_axis1. eexists. split; [reflexivity|].
  destruct (T_rank2_data n a dq Hq) as [Hlq Hgq].
  destruct (T_rank2_data n b dk Hk) as [Hlk Hgk].
  destruct (T_rank2_data n c dv Hv) as [Hlv Hgv].
  set (dTq := Np.data (Np.T (Np.Ndarray [n; a] dq))) in *.
  set (dTk := Np.data (Np.T (Np.Ndarray [n; b] dk))) in *.
  set (dTv := Np.data (Np.T (Np.Ndarray [n; c] dv))) in *.
  assert (Np.T (Np.Ndarray [n; a] dq) = Np.Ndarray [a; n] dTq) as ->
    by (subst dTq; by rewrite T_rank2).
  assert (Np.T (Np.Ndarray [n; b] dk) = Np.Ndarray [b; n] dTk) as ->
    by (subst dTk; by rewrite T_rank2).
  assert (Np.T (Np.Ndarray [n; c] dv) = Np.Ndarray [c; n] dTv) as ->
    by (subst dTv; by rewrite T_rank2).
  rewrite (concatenate_rank2_axis0 n a b c dTq dTk dTv Hlq Hlk Hlv).
  set (m := a + b + c).
  set (chunk := fun o => (take a (drop (o * a) dq) ++ take b (drop (o * b) dk)
                            ++ take c (drop (o * c) dv))%list).
  set (D := flat_map chunk (seq 0 n)).
  assert (Hchunk : ∀ o, o ∈ seq 0 n → length (chunk o) = m).
  { intros o Ho%list_elem_of_In%in_seq. unfold chunk.
    rewrite !length_app.
    rewrite (length_row a n), (length_row b n), (length_row c n) by (done || lia).
    unfold m. lia. }
  assert (HD : length D = n * m).
  { unfold D. rewrite (length_flat_map_uniform chunk m) by done.
    by rewrite length_seq. }
  destruct (T_rank2_data n m D HD) as [HlT HgT].
  rewrite T_rank2 in *. cbn [Np.data Np.shape] in *. split; [|done].
  do 2 f_equal. apply list_eq. intros i.
  destruct (decide (i < m * n)) as [Hi|Hi].
  2:{ rewrite !lookup_ge_None_2; [done|lia|].
      rewrite !length_app. unfold m in Hi. lia. }
  rewrite HgT by done.
  assert (Hn : n ≠ 0) by (intros ->; lia).
  pose proof (Nat.mod_upper_bound i n Hn) as Ho.
  assert (Hj : i / n < m) by (apply Nat.Div0.div_lt_upper_bound; lia).
  pose proof (Nat.div_mod_eq i n) as Hdm.
  set (o := i mod n) in *. set (j := i / n) in *.
  unfold D. rewrite (lookup_flat_map_uniform chunk m) by done.
  rewrite lookup_seq_lt by done. cbn [mbind option_bind Nat.add]. unfold chunk.
  destruct (decide (j < a)) as [Ha|Ha].
  { rewrite (lookup_app_l dTq) by (rewrite Hlq; nia).
    rewrite Hgq by nia. fold o j.
    rewrite lookup_app_l by (rewrite (length_row a n) by done; done).
    by rewrite lookup_row by done. }
  rewrite (lookup_app_r dTq) by (rewrite Hlq; nia). rewrite Hlq.
  rewrite (lookup_app_r (take a (drop (o * a) dq)))
    by (rewrite (length_row a n) by done; lia).
  rewrite (length_row a n) by done.
  destruct (decide (j < a + b)) as [Hb|Hb].
  { rewrite (lookup_app_l dTk) by (rewrite Hlk; nia).
    rewrite Hgk by nia.
    assert (Hi' : i - a * n = n * (j - a) + o) by nia.
    destruct (div_mod_block n (j - a) o Ho) as [Hd' Hm'].
    rewrite Hi', Hd', Hm'.
    rewrite lookup_app_l by (rewrite (length_row b n) by done; lia).
    by rewrite lookup_row by lia. }
  rewrite (lookup_app_r dTk) by (rewrite Hlk; nia). rewrite Hlk.
  rewrite (lookup_app_r (take b (drop (o * b) dk)))
    by (rewrite (length_row b n) by done; lia).
  rewrite (length_row b n) by done.
  rewrite Hgv by (unfold m in Hj; nia).
  assert (Hi' : i - a * n - b * n = n * (j - a - b) + o) by nia.
  destruct (div_mod_block n (j - a - b) o Ho) as [Hd' Hm'].
  rewrite Hi', Hd', Hm'.
  by rewrite lookup_row by (unfold m in Hj; lia).
Qed.
End NpFacts.

(** X18. Transposing a matrix twice gives the matrix back: a dense
    kernel that went through [.T] is recovered by [.T]. *)
Theorem T_involutive_on_matrices {A : Type} (r c : nat) (d : list A) :
  length d = r * c →
  Np.T (Np.T (Np.Ndarray [r; c] d)) = Np.Ndarray [r; c] d.
Proof. apply T_T_rank2. Qed.

Lemma T_involutive_on_matrices_witness :
  Np.T (Np.T (Np.Ndarray [2; 3] [1; 2; 3; 4; 5; 6]%Z))
  = Np.Ndarray [2; 3] [1; 2; 3; 4; 5; 6]%Z.
Proof. apply (T_involutive_on_matrices 2 3 [1; 2; 3; 4; 5; 6]%Z). reflexivity. Defined.

(** X19. The layout of the fused slots. For a layer whose three
    kernels are matrices of [n] rows and whose three biases are
    vectors, the merger leaves in the fused weight slot the
    transposed query kernel above the transposed key kernel above the
    transposed value kernel, and in the fused bias slot the three
    biases one after the other. *)
Theorem fused_slots_layout {A : Type}
    (tf_params : gmap string (Np.ndarray A)) (mx_params : gmap string loc)
    (convert_type : string) (num_layers layer_id : nat) (h h' : @heap A)
    (n a b c : nat) (dq dk dv bq bk bv : list A) :
  merge_qkv tf_params mx_params convert_type num_layers h = inr h' →
  unshared mx_params (merger_filled convert_type num_layers) →
  layer_id < num_layers →
  tf_params !! ((layer_prefixes convert_type layer_id).1 +:+ "/query/kernel")
  = Some (Np.Ndarray [n; a] dq) →
  tf_params !! ((layer_prefixes convert_type layer_id).1 +:+ "/key/kernel")
  = Some (Np.Ndarray [n; b] dk) →
  tf_params !! ((layer_prefixes convert_type layer_id).1 +:+ "/value/kernel")
  = Some (Np.Ndarray [n; c] dv) →
  tf_params !! ((layer_prefixes convert_type layer_id).1 +:+ "/query/bias")
  = Some (Np.Ndarray [a] bq) →
  tf_params !! ((layer_prefixes convert_type layer_id).1 +:+ "/key/bias")
  = Some (Np.Ndarray [b] bk) →
  tf_params !! ((layer_prefixes convert_type layer_id).1 +:+ "/value/bias")
  = Some (Np.Ndarray [c] bv) →
  length dq = n * a → length dk = n * b → length dv = n * c →
  length bq = a → length bk = b → length bv = c →
  ∃ weight_param bias_param,
    mx_params !! ((layer_prefixes convert_type layer_id).2 +:+ ".attn_qkv.weight")
    = Some weight_param
    ∧ mx_params !! ((layer_prefixes convert_type layer_id).2 +:+ ".attn_qkv.bias")
      = Some bias_param
    ∧ h' weight_param
      = Np.Ndarray [a + b + c; n]
          (Np.data (Np.T (Np.Ndarray [n; a] dq))
           ++ Np.data (Np.T (Np.Ndarray [n; b] dk))
           ++ Np.data (Np.T (Np.Ndarray [n; c] dv)))%list
    ∧ h' bias_param = Np.Ndarray [a + b + c] (bq ++ bk ++ bv)%list.
Proof.
  intros Hrun Hu Hlt Sq Sk Sv Sbq Sbk Sbv Hq Hk Hv Hbq Hbk Hbv.
  assert (Hin : layer_id ∈ seq 0 num_layers) by (apply list_elem_of_In, in_seq; lia).
  destruct (merge_layers_written _ _ _ _ _ _ Hrun (NoDup_seq 0 num_layers) Hu
              layer_id Hin)
    as (q & k & v & qb & kb & vb & w & fb & lw & lb & Eq & Ek & Ev & Eqb & Ekb & Evb
        & Hcw & Hcb & Hlw & Hlb & Hhw & Hhb).
  rewrite Sq in Eq. rewrite Sk in Ek. rewrite Sv in Ev.
  rewrite Sbq in Eqb. rewrite Sbk in Ekb. rewrite Sbv in Evb.
  injection Eq as <-. injection Ek as <-. injection Ev as <-.
  injection Eqb as <-. injection Ekb as <-. injection Evb as <-.
  exists lw, lb. split; [done|]. split; [done|].
  destruct (transposed_concatenation n a b c dq dk dv Hq Hk Hv)
    as (w' & Hw1 & Hw2 & Hsh).
  rewrite Hcw in Hw1. injection Hw1 as <-.
  rewrite (concatenate_rank1 a b c bq bk bv) in Hcb by done. injection Hcb as <-.
  split; [|done]. rewrite Hhw.
  destruct (T_rank2_data n a dq Hq) as [Hlq _].
  destruct (T_rank2_data n b dk Hk) as [Hlk _].
  destruct (T_rank2_data n c dv Hv) as [Hlv _].
  assert (HT : ∀ r' c' (d' : list A),
             Np.T (Np.Ndarray [r'; c'] d')
             = Np.Ndarray [c'; r'] (Np.data (Np.T (Np.Ndarray [r'; c'] d'))))
    by (intros; by rewrite T_rank2).
  rewrite (HT n a dq), (HT n b dk), (HT n c dv) in Hw2.
  rewrite (concatenate_rank2_axis0 n a b c) in Hw2 by done.
  apply (inj inr) in Hw2. symmetry. exact Hw2.
Qed.

Lemma fused_slots_layout_witness :
  ∃ weight_param bias_param,
    ex2_mx_params !! ((layer_prefixes "disc" 0).2 +:+ ".attn_qkv.weight")
    = Some weight_param
    ∧ ex2_mx_params !! ((layer_prefixes "disc" 0).2 +:+ ".attn_qkv.bias")
      = Some bias_param
    ∧ ex2_heap' weight_param
      = Np.Ndarray [1 + 1 + 1; 2]
          (Np.data (Np.T (Np.Ndarray [2; 1] [1; 2]%Z))
           ++ Np.data (Np.T (Np.Ndarray [2; 1] [3; 4]%Z))
           ++ Np.data (Np.T (Np.Ndarray [2; 1] [5; 6]%Z)))%list
    ∧ ex2_heap' bias_param = Np.Ndarray [1 + 1 + 1] ([7] ++ [8] ++ [9])%list%Z.
Proof.
  apply (fused_slots_layout ex2_tf_params ex2_mx_params "disc" 1 0 ex2_heap ex2_heap'
           2 1 1 1 [1; 2]%Z [3; 4]%Z [5; 6]%Z [7]%Z [8]%Z [9]%Z);
    [ vm_compute; reflexivity | exact ex2_unshared | lia | vm_compute; reflexivity .. ].
Defined.

Lemma convert_role_success_witness :
  ∃ name_map, get_name_map ex4_tf_names "disc" = inr name_map
    ∧ (∀ param, Np.shape (ex4_heap' param) = Np.shape (ex4_heap param))
    ∧ (∀ param,
         (∀ d, d ∈ touched name_map ∪ merger_filled "disc" 1 →
               ex4_mx_params !! d ≠ Some param) →
         ex4_heap' param = ex4_heap param)
    ∧ (∀ d, d ∈ dom ex4_mx_params →
         d ∈ touched name_map ∨ d ∈ exempt "disc"
         ∨ Re.match_anchored qkv_regex d = true).
Proof.
  apply (convert_role_success ex4_tf_names ex4_tf_params ex4_mx_params 1 "disc"
           ex4_heap ex4_heap').
  vm_compute. reflexivity.
Defined.

(** ** Reading the checkpoint *)

Lemma sorted_idempotent keys : sorted (sorted keys) = sorted keys.
Proof.
  unfold sorted. apply (Sorted_unique String.le).
  - apply (Sorted_merge_sort String.le).
  - apply (Sorted_merge_sort String.le).
  - by rewrite merge_sort_Permutation.
Qed.

Section ReadFacts.
Context {A E : Type}.
Implicit Types (reader : @CheckpointReader A E) (d : Dict.t (Np.ndarray A)).

(** The loop over the keys: it appends the tensors in the order of
    the keys, or stops at the first key that cannot be read. *)
Lemma read_tensors_spec reader (keys : list string) d :
  NoDup keys →
  (∀ k, k ∈ keys → k ∉ Dict.keys d) →
  match read_tensors reader keys d with
  | inr tensors =>
      ∃ vals, tensors = (d ++ zip keys vals)%list
        ∧ Forall2 (fun k t => get_tensor reader k = inr t) keys vals
  | inl e =>
      ∃ before key after, keys = (before ++ key :: after)%list
        ∧ (∀ k, k ∈ before → ∃ t, get_tensor reader k = inr t)
        ∧ get_tensor reader key = inl e
  end.
Proof.
  revert d. induction keys as [|k keys IH]; intros d Hnd Hfresh; cbn [read_tensors].
  - exists []. split; [by rewrite List.app_nil_r | constructor].
  - apply NoDup_cons in Hnd as [Hk Hnd].
    destruct (get_tensor reader k) as [e|t] eqn:Ek.
    + exists [], k, keys. split; [done|]. split; [|done].
      intros k' Hk'. by apply elem_of_nil in Hk'.
    + rewrite dict_set_fresh by (apply Hfresh; left).
      specialize (IH (d ++ [(k, t)])%list Hnd).
      destruct (read_tensors reader keys (d ++ [(k, t)])%list) as [e|tensors].
      * destruct IH as (before & key & after & -> & Hbefore & Hkey).
        { intros k' Hk'. unfold Dict.keys. rewrite map_app. simpl.
          rewrite elem_of_app, list_elem_of_singleton.
          intros [Hd | ->]; [|done]. apply (Hfresh k'); [by right|done]. }
        exists (k :: before), key, after. split; [done|]. split; [|done].
        intros k' [->|Hk']%elem_of_cons; [by exists t | by apply Hbefore].
      * destruct IH as (vals & -> & Hvals).
        { intros k' Hk'. unfold Dict.keys. rewrite map_app. simpl.
          rewrite elem_of_app, list_elem_of_singleton.
          intros [Hd | ->]; [|done]. apply (Hfresh k'); [by right|done]. }
        exists (t :: vals). split; [by rewrite <-List.app_assoc | by constructor].
Qed.

Lemma dict_keys_zip reader (keys : list string) vals :
  Forall2 (fun k t => get_tensor reader k = inr t) keys vals →
  Dict.keys (zip keys vals) = keys.
Proof.
  induction 1 as [|k t keys vals _ _ IH]; [done|].
  unfold Dict.keys in *. simpl. by rewrite IH.
Qed.

Lemma dict_get_zip reader (keys : list string) vals key :
  Forall2 (fun k t => get_tensor reader k = inr t) keys vals →
  match Dict.get (zip keys vals) key with
  | Some tensor => key ∈ keys ∧ get_tensor reader key = inr tensor
  | None => key ∉ keys
  end.
Proof.
  induction 1 as [|k t keys vals Hk _ IH]; simpl.
  - apply not_elem_of_nil.
  - destruct (String.eqb_spec k key) as [->|Hne].
    + split; [by left | done].
    + destruct (Dict.get (zip keys vals) key).
      * destruct IH as [Hin Ht]. split; [by right | done].
      * apply not_elem_of_cons. split; [congruence | done].
Qed.

(** X21. [read_tf_checkpoint] returns when the import of the library,
    the opening of the path, the listing of the variables and the
    reading of every listed variable all succeed, and only then: its
    result holds the tensor of every listed variable and nothing
    else, with its keys in lexicographic order, so that sorting them
    again, as [convert_tf_model] does, changes nothing. Otherwise it
    raises, unchanged, the exception of the first call of the
    library that failed, the variables being read in lexicographic
    order. *)
Theorem read_tf_checkpoint_reads_all_or_raises_the_first_failure
    (pywrap_tensorflow : E + (string → E + @CheckpointReader A E)) (path : string) :
  match read_tf_checkpoint pywrap_tensorflow path with
  | inr tensors =>
      ∃ NewCheckpointReader reader var_to_shape_map,
        pywrap_tensorflow = inr NewCheckpointReader
        ∧ NewCheckpointReader path = inr reader
        ∧ get_variable_to_shape_map reader = inr var_to_shape_map
        ∧ Dict.keys tensors = sorted (elements (dom var_to_shape_map))
        ∧ sorted (Dict.keys tensors) = Dict.keys tensors
        ∧ ∀ key,
            match Dict.get tensors key with
            | Some tensor =>
                key ∈ dom var_to_shape_map ∧ get_tensor reader key = inr tensor
            | None => key ∉ dom var_to_shape_map
            end
  | inl e =>
      pywrap_tensorflow = inl e
      ∨ ∃ NewCheckpointReader,
          pywrap_tensorflow = inr NewCheckpointReader
          ∧ (NewCheckpointReader path = inl e
             ∨ ∃ reader,
                 NewCheckpointReader path = inr reader
                 ∧ (get_variable_to_shape_map reader = inl e
                    ∨ ∃ var_to_shape_map before key after,
                        get_variable_to_shape_map reader = inr var_to_shape_map
                        ∧ sorted (elements (dom var_to_shape_map))
                          = (before ++ key :: after)%list
                        ∧ (∀ k, k ∈ before → ∃ tensor, get_tensor reader k = inr tensor)
                        ∧ get_tensor reader key = inl e))
  end.
Proof.
  unfold read_tf_checkpoint.
  destruct pywrap_tensorflow as [e|NewCheckpointReader]; [by left|].
  destruct (NewCheckpointReader path) as [e|reader] eqn:Eopen.
  { right. exists NewCheckpointReader. split; [done|]. by left. }
  destruct (get_variable_to_shape_map reader) as [e|var_to_shape_map] eqn:Emap.
  { right. exists NewCheckpointReader. split; [done|]. right.
    exists reader. split; [done|]. by left. }
  pose proof (read_tensors_spec reader (sorted (elements (dom var_to_shape_map))) []) as Hrun.
  destruct (read_tensors reader (sorted (elements (dom var_to_shape_map))) [])
    as [e|tensors].
  - destruct Hrun as (before & key & after & Hsplit & Hbefore & Hkey).
    { unfold sorted. rewrite merge_sort_Permutation. apply NoDup_elements. }
    { intros k _. apply not_elem_of_nil. }
    right. exists NewCheckpointReader. split; [done|]. right.
    exists reader. split; [done|]. right.
    by exists var_to_shape_map, before, key, after.
  - destruct Hrun as (vals & -> & Hvals).
    { unfold sorted. rewrite merge_sort_Permutation. apply NoDup_elements. }
    { intros k _. apply not_elem_of_nil. }
    exists NewCheckpointReader, reader, var_to_shape_map. cbn [app].
    rewrite (dict_keys_zip _ _ _ Hvals).
    repeat (split; [done|]). split; [apply sorted_idempotent|].
    intros key. pose proof (dict_get_zip _ _ _ key Hvals) as Hget.
    destruct (Dict.get (zip (sorted (elements (dom var_to_shape_map))) vals) key).
    + by rewrite elem_of_sorted, elem_of_elements in Hget.
    + by rewrite elem_of_sorted, elem_of_elements in Hget.
Qed.
End ReadFacts.

(** A checkpoint of three variables: read in full, stopped at the
    variable that cannot be read, and not opened at another path. *)
Example read_tf_checkpoint_ex :
  read_tf_checkpoint (ex7_pywrap_tensorflow true) "ckpt/electra_small"
  = inr [ ("a", Np.Ndarray [1] [5%Z]); ("b", Np.Ndarray [2] [6%Z; 7%Z]);
          ("global_step", Np.Ndarray [] [100%Z]) ]
  ∧ read_tf_checkpoint (ex7_pywrap_tensorflow false) "ckpt/electra_small"
    = inl "DataLossError"
  ∧ read_tf_checkpoint (ex7_pywrap_tensorflow true) "ckpt/electra_base"
    = inl "NotFoundError"
  ∧ read_tf_checkpoint (A := Z) (inl "ImportError") "ckpt/electra_small"
    = inl "ImportError".
Proof. repeat split; vm_compute; reflexivity. Qed.

